(** * cryptag/backend: tag creation and row population

    A shallow embedding of [backend/backend.go]: the batch creation of
    TagPairs by concurrent goroutines ([CreateTagsFromPlain]), single tag
    creation ([NewTagPair], [CreateTag]) and the preparation of a row for
    storage ([PopulateRowBeforeSave]).

    Shared state (the backend, the system's random source, the log) is
    threaded explicitly through a [World].  The goroutines of
    [CreateTagsFromPlain] are small state machines that advance one call to
    an external capability at a time; a schedule (a list of goroutine
    indices) fixes the interleaving. *)

From Stdlib Require Import ZArith String Ascii List Lia.
From stdpp Require Import base list strings.

Local Open Scope string_scope.
Local Open Scope list_scope.
Local Open Scope nat_scope.

(** ** Data model *)

(** Go's [[]byte]; keys ([*[32]byte]) and nonces are byte sequences too. *)
Definition bytes : Type := list Byte.byte.

(** Go [error] values.  Every [fmt.Errorf] site of the file is a constructor,
    errors coming out of a capability (crypto, storage) are [ErrExternal];
    [Error] renders the message the Go value carries. *)
Inductive error : Type :=
| ErrExternal (msg : string)
| ErrSavingTagPair (name : string) (cause : error)
| ErrFromCreateTags (cause : error)
| ErrMissingTagPair (plain : string)
| ErrEncrypting (cause : error).

Fixpoint Error (e : error) : string :=
  match e with
  | ErrExternal msg => msg
  | ErrSavingTagPair name cause =>
      "Error saving tag pair to backend " +:+ name +:+ ": " +:+ Error cause
  | ErrFromCreateTags cause =>
      "Error from CreateNewTagsFromPlain: " +:+ Error cause
  | ErrMissingTagPair plain =>
      "No corresponding TagPair found for plain tag `" +:+ plain +:+ "`"
  | ErrEncrypting cause => "Error encrypting data: " +:+ Error cause
  end.

(** Modelled from the spec: [types.TagPair] (package [types] is not part of
    the sources at hand).  The spec's data model gives its four fields:
    the ciphertext of the plain tag, the random substitute, the nonce and the
    locally retained plaintext, read through [pair.Plain()]. *)
Record TagPair : Type := types_NewTagPair {
  PlainEncrypted : bytes;
  Random : string;
  Nonce : bytes;
  Plain : string;
}.

(** [types.TagPairs] is [[]*TagPair]; the pointers are taken to be non-nil. *)
Definition TagPairs : Type := list TagPair.

(** Modelled from the spec: [types.Row], with the accessors the code uses:
    [row.PlainTags()], [row.RandomTags], [row.Decrypted()], [row.Encrypted]
    and [row.Nonce]. *)
Record Row : Type := mkRow {
  PlainTags : list string;
  RandomTags : list string;
  Decrypted : bytes;
  Encrypted : bytes;
  RowNonce : bytes;
}.

(** Modelled from the spec: [TagPairs.AllPlain], the plaintext values of all
    pairs, in order. *)
Definition AllPlain (pairs : TagPairs) : list string := map Plain pairs.

(** Modelled from the spec: [fun.SliceContains] (an external library),
    membership of a string in a slice. *)
Fixpoint SliceContains (slice : list string) (s : string) : bool :=
  match slice with
  | [] => false
  | x :: rest => if String.eqb x s then true else SliceContains rest s
  end.

(** ** Randomness *)

(** The system's secure random source: an entropy tape and a read cursor. *)
Record Rng : Type := mkRng { tape : nat -> nat; cursor : nat }.

(** One draw of an index below [max]. *)
Definition rand_int (max : nat) (g : Rng) : nat * Rng :=
  (tape g (cursor g) mod max, mkRng (tape g) (S (cursor g))).

Definition RANDOM_TAG_ALPHABET : string := "abcdefghijklmnopqrstuvwxyz0123456789".
Definition RANDOM_TAG_LENGTH : Z := 9.

(** Modelled from the spec: [fun.RandomString] (an external library): a
    string of [length] symbols, each drawn from [alphabet] at an index taken
    from the random source.  Symbols are appended in drawing order. *)
Fixpoint RandomString (alphabet : string) (length : nat) (g : Rng) : string * Rng :=
  match length with
  | O => (EmptyString, g)
  | S n =>
      let '(k, g1) := rand_int (String.length alphabet) g in
      let '(s, g2) := RandomString alphabet n g1 in
      (String (default Ascii.zero (String.get k alphabet)) s, g2)
  end.

(** ** Capabilities *)

(** The methods of the [Backend] interface that this file calls, over the
    backend's state [B].  [SaveTagPair] may change the backend whether or not
    it reports an error.  (The interface's other methods, the row operations
    and [ToConfig], are never called by the pipeline.) *)
Class Backend (B : Type) : Type := {
  Name : B -> string;
  Key : B -> bytes;
  SaveTagPair : B -> TagPair -> B * option error;
}.

(** The crypto capability of package [cryptag]: [RandomNonce] reads the
    random source and may fail, [Encrypt plaintext nonce key] may fail. *)
Class Crypto : Type := {
  RandomNonce : Rng -> (bytes + error) * Rng;
  Encrypt : bytes -> bytes -> bytes -> bytes + error;
}.

(** What [log.Printf] receives. *)
Inductive LogEntry : Type :=
| LogCreateTagError (plain : string) (err : error)
| LogCreated (plain : string) (random : string).

(** The state shared by the goroutines and the caller. *)
Record World (B : Type) : Type := mkWorld {
  bk : B;
  rng : Rng;
  logs : list LogEntry;
}.
Arguments mkWorld {B} _ _ _.
Arguments bk {B} _.
Arguments rng {B} _.
Arguments logs {B} _.

(** ** Goroutines *)

(** Where a goroutine of [CreateTagsFromPlain] stands.  [Sent p] is the value
    handed to the goroutine's channel ([None] is Go's [nil]). *)
Inductive Stage : Type :=
| Launched
| HasKey (key : bytes)
| HasRandom (key : bytes) (rand : string)
| HasPair (pair : TagPair)
| Returned (res : TagPair + error)
| Sent (p : option TagPair).

(** A goroutine with the plaintag it was launched for; its channel is its
    position in the list of tasks. *)
Record Task : Type := mkTask { task_plain : string; stage : Stage }.

Section Pipeline.

Context {B : Type} `{!Backend B} `{!Crypto}.

(** [types.Debug] *)
Variable Debug : bool.

(** The tail of [NewTagPair], after the random tag was drawn. *)
Definition NewTagPair_finish (key : bytes) (plaintag rand : string) (g : Rng)
  : (TagPair + error) * Rng :=
  let '(r, g1) := RandomNonce g in
  match r with
  | inr err => (inr err, g1)
  | inl nonce =>
      match Encrypt (list_byte_of_string plaintag) nonce key with
      | inr err => (inr err, g1)
      | inl plainEnc => (inl (types_NewTagPair plainEnc rand nonce plaintag), g1)
      end
  end.

Definition NewTagPair (key : bytes) (plaintag : string) (g : Rng)
  : (TagPair + error) * Rng :=
  let '(rand, g1) := RandomString RANDOM_TAG_ALPHABET (Z.to_nat RANDOM_TAG_LENGTH) g in
  NewTagPair_finish key plaintag rand g1.

(** The tail of [CreateTag]: saving the pair. *)
Definition CreateTag_save (pair : TagPair) (b : B) : (TagPair + error) * B :=
  let '(b1, r) := SaveTagPair b pair in
  match r with
  | Some err => (inr (ErrSavingTagPair (Name b1) err), b1)
  | None => (inl pair, b1)
  end.

(** [CreateTag] run without interruption. *)
Definition CreateTag (plaintag : string) (w : World B) : (TagPair + error) * World B :=
  let '(r, g1) := NewTagPair (Key (bk w)) plaintag (rng w) in
  match r with
  | inr err => (inr err, mkWorld (bk w) g1 (logs w))
  | inl pr =>
      let '(r1, b1) := CreateTag_save pr (bk w) in
      (r1, mkWorld b1 g1 (logs w))
  end.

(** One step of a goroutine: the next access to shared state. *)
Definition step_task (w : World B) (t : Task) : World B * Task :=
  let plain := task_plain t in
  match stage t with
  | Launched => (w, mkTask plain (HasKey (Key (bk w))))
  | HasKey key =>
      let '(rand, g1) :=
        RandomString RANDOM_TAG_ALPHABET (Z.to_nat RANDOM_TAG_LENGTH) (rng w) in
      (mkWorld (bk w) g1 (logs w), mkTask plain (HasRandom key rand))
  | HasRandom key rand =>
      let '(r, g1) := NewTagPair_finish key plain rand (rng w) in
      (mkWorld (bk w) g1 (logs w),
       mkTask plain (match r with
                     | inl pr => HasPair pr
                     | inr err => Returned (inr err)
                     end))
  | HasPair pr =>
      let '(r, b1) := CreateTag_save pr (bk w) in
      (mkWorld b1 (rng w) (logs w), mkTask plain (Returned r))
  | Returned (inr err) =>
      (mkWorld (bk w) (rng w) (logs w ++ [LogCreateTagError plain err]),
       mkTask plain (Sent None))
  | Returned (inl pr) =>
      (if Debug
       then mkWorld (bk w) (rng w) (logs w ++ [LogCreated (Plain pr) (Random pr)])
       else w,
       mkTask plain (Sent (Some pr)))
  | Sent _ => (w, t)
  end.

(** A goroutine is done after at most this many steps. *)
Definition TASK_STEPS : nat := 5.

(** A goroutine left alone for [n] steps. *)
Fixpoint step_n (n : nat) (s : World B * Task) : World B * Task :=
  match n with
  | O => s
  | S m => step_n m (step_task s.1 s.2)
  end.

(** Goroutine [i] takes a step (nothing happens if there is no such
    goroutine). *)
Definition step_at (i : nat) (s : World B * list Task) : World B * list Task :=
  match s.2 !! i with
  | Some t => let '(w1, t1) := step_task s.1 t in (w1, <[i := t1]> s.2)
  | None => s
  end.

Definition run (sched : list nat) (s : World B * list Task) : World B * list Task :=
  foldl (fun s i => step_at i s) s sched.

(** Whatever the schedule left unfinished is run to completion. *)
Definition completion (n : nat) : list nat :=
  flat_map (fun i => replicate TASK_STEPS i) (seq 0 n).

(** The first loop of [CreateTagsFromPlain]: one channel and one goroutine
    per plaintag that is not among the existing ones. *)
Fixpoint launch (existingPlain plaintags : list string) (chs : list Task) : list Task :=
  match plaintags with
  | [] => chs
  | plain :: rest =>
      if negb (SliceContains existingPlain plain)
      then launch existingPlain rest (chs ++ [mkTask plain Launched])
      else launch existingPlain rest chs
  end.

(** What the aggregator receives from a goroutine's channel. *)
Definition receive (t : Task) : option TagPair :=
  match stage t with
  | Sent p => p
  | _ => None
  end.

(** The second loop: the channels are read in launch order. *)
Fixpoint drain (chs : list Task) (newPairs : TagPairs) : TagPairs :=
  match chs with
  | [] => newPairs
  | t :: rest =>
      match receive t with
      | Some p => drain rest (newPairs ++ [p])
      | None => drain rest newPairs
      end
  end.

(** The goroutines once all of them have sent, under schedule [sched]. *)
Definition run_tasks (sched : list nat) (w : World B) (plaintags : list string)
    (pairs : TagPairs) : World B * list Task :=
  let chs := launch (AllPlain pairs) plaintags [] in
  run (sched ++ completion (length chs)) (w, chs).

Definition CreateTagsFromPlain (sched : list nat) (w : World B)
    (plaintags : list string) (pairs : TagPairs)
  : (TagPairs * option error) * World B :=
  let '(w1, chs) := run_tasks sched w plaintags pairs in
  ((drain chs [], None), w1).

(** ** Row population *)

(** Outcome of the inner loop of [PopulateRowBeforeSave] for one plain tag:
    [Found] is the [break], [NotFound] the [return] with an error, and
    [Exhausted] the loop running out of elements. *)
Inductive Scan : Type :=
| Found (random : string)
| NotFound
| Exhausted.

(** The inner loop from index [i] on; [rest] are the elements from [i] on
    and [len] is [len(allTagPairs)]. *)
Fixpoint scan (plain : string) (rest : TagPairs) (i len : Z) : Scan :=
  match rest with
  | [] => Exhausted
  | pr :: rest' =>
      if String.eqb plain (Plain pr) then Found (Random pr)
      else if (i =? len - 1)%Z then NotFound
      else scan plain rest' (i + 1)%Z len
  end.

(** The outer loop. *)
Fixpoint resolve (plainTags : list string) (allTagPairs : TagPairs)
    (randtags : list string) : list string + error :=
  match plainTags with
  | [] => inl randtags
  | plain :: rest =>
      match scan plain allTagPairs 0 (Z.of_nat (length allTagPairs)) with
      | Found r => resolve rest allTagPairs (randtags ++ [r])
      | NotFound => inr (ErrMissingTagPair plain)
      | Exhausted => resolve rest allTagPairs randtags
      end
  end.

Definition PopulateRowBeforeSave (sched : list nat) (w : World B) (row : Row)
    (pairs : TagPairs) : (TagPairs * option error) * Row * World B :=
  let '((newPairs, err), w1) := CreateTagsFromPlain sched w (PlainTags row) pairs in
  match err with
  | Some e => ((newPairs, Some (ErrFromCreateTags e)), row, w1)
  | None =>
      let allTagPairs := pairs ++ newPairs in
      match resolve (PlainTags row) allTagPairs [] with
      | inr e => ((newPairs, Some e), row, w1)
      | inl randtags =>
          let row1 := mkRow (PlainTags row) randtags (Decrypted row)
                            (Encrypted row) (RowNonce row) in
          match Encrypt (Decrypted row1) (RowNonce row1) (Key (bk w1)) with
          | inr e => ((newPairs, Some (ErrEncrypting e)), row1, w1)
          | inl encData =>
              ((newPairs, None),
               mkRow (PlainTags row1) (RandomTags row1) (Decrypted row1)
                     encData (RowNonce row1),
               w1)
          end
      end
  end.

End Pipeline.

(** ** Specification-side notions *)

(** The plaintags for which [CreateTagsFromPlain] launches a goroutine, in
    the order of the scan. *)
Definition missing_tags (existingPlain plaintags : list string) : list string :=
  List.filter (fun plain => negb (SliceContains existingPlain plain)) plaintags.

(** A random tag as the spec describes it: nine symbols of the alphabet. *)
Definition is_random_tag (s : string) : Prop :=
  String.length s = 9 ∧
  Forall (fun c => c ∈ list_ascii_of_string RANDOM_TAG_ALPHABET) (list_ascii_of_string s).

(** The spec's resolution rule: the [random] of the first pair of [allPairs]
    whose plaintext equals [plain]. *)
Fixpoint first_match (plain : string) (allPairs : TagPairs) : option string :=
  match allPairs with
  | [] => None
  | pr :: rest =>
      if decide (Plain pr = plain) then Some (Random pr) else first_match plain rest
  end.

(** The first plain tag without a pair, if any. *)
Fixpoint first_unmatched (plainTags : list string) (allPairs : TagPairs) : option string :=
  match plainTags with
  | [] => None
  | plain :: rest =>
      match first_match plain allPairs with
      | Some _ => first_unmatched rest allPairs
      | None => Some plain
      end
  end.

(** The number of times [p] occurs in a list of plaintexts. *)
Definition occurrences (p : string) (l : list string) : nat :=
  length (List.filter (String.eqb p) l).

(** The tags whose goroutine delivered a pair: [tags] with the entries
    removed whose result is nil. *)
Fixpoint remove_failed (tags : list string) (results : list (option TagPair))
  : list string :=
  match tags, results with
  | t :: tags', Some _ :: results' => t :: remove_failed tags' results'
  | _ :: tags', None :: results' => remove_failed tags' results'
  | _, _ => []
  end.

(** The number of goroutines that delivered nil. *)
Fixpoint failed_slots (results : list (option TagPair)) : nat :=
  match results with
  | [] => 0
  | None :: rest => S (failed_slots rest)
  | Some _ :: rest => failed_slots rest
  end.

(** What the goroutines deliver on their channels, in launch order. *)
Definition delivered {B : Type} `{!Backend B} `{!Crypto} (Debug : bool)
    (sched : list nat) (w : World B) (plaintags : list string) (pairs : TagPairs)
  : list (option TagPair) :=
  map receive (run_tasks Debug sched w plaintags pairs).2.

(** The invariant of a goroutine: whatever pair it holds was built for its
    own plaintag and carries a well-formed random tag. *)
Definition pair_ok (plain : string) (pr : TagPair) : Prop :=
  Plain pr = plain ∧ is_random_tag (Random pr).

Definition task_ok (t : Task) : Prop :=
  match stage t with
  | Launched | HasKey _ => True
  | HasRandom _ rand => is_random_tag rand
  | HasPair pr => pair_ok (task_plain t) pr
  | Returned (inl pr) => pair_ok (task_plain t) pr
  | Returned (inr _) => True
  | Sent (Some pr) => pair_ok (task_plain t) pr
  | Sent None => True
  end.

Definition is_sent (t : Task) : Prop :=
  match stage t with
  | Sent _ => True
  | _ => False
  end.

(** An upper bound on the steps a goroutine still takes. *)
Definition steps_left (st : Stage) : nat :=
  match st with
  | Launched => 5
  | HasKey _ => 4
  | HasRandom _ _ => 3
  | HasPair _ => 2
  | Returned _ => 1
  | Sent _ => 0
  end.

(** Steps still to go for goroutine [j]. *)
Definition left_at {B : Type} (j : nat) (s : World B * list Task) : nat :=
  from_option (fun t => steps_left (stage t)) 0 (s.2 !! j).

(** ** A backend and a crypto capability to run the code on *)

(** An in-memory backend: it keeps the pairs it saved and refuses the plain
    tags listed in [mem_refused]. *)
Record MemBackend : Type := mkMem {
  mem_name : string;
  mem_key : bytes;
  mem_saved : TagPairs;
  mem_refused : list string;
}.

#[export] Instance MemBackend_Backend : Backend MemBackend := {|
  Name := mem_name;
  Key := mem_key;
  SaveTagPair b pr :=
    if SliceContains (mem_refused b) (Plain pr)
    then (b, Some (ErrExternal "refused"))
    else (mkMem (mem_name b) (mem_key b) (mem_saved b ++ [pr]) (mem_refused b), None);
|}.

(** A toy cipher: the nonce is one byte of the random source; encryption
    fails on an empty nonce and otherwise prefixes the nonce to the
    plaintext. *)
#[export] Instance ToyCrypto : Crypto := {|
  RandomNonce g :=
    let '(k, g1) := rand_int 256 g in
    (inl [default Byte.x00 (Byte.of_nat k)], g1);
  Encrypt plaintext nonce key :=
    match nonce with
    | [] => inr (ErrExternal "nil nonce")
    | _ => inl (nonce ++ plaintext)
    end;
|}.

Definition counting_rng : Rng := mkRng (fun n => n) 0.

Definition mem0 (refused : list string) : World MemBackend :=
  mkWorld (mkMem "mem" [Byte.x01] [] refused) counting_rng [].

(** A pair already known for the plain tag "work". *)
Definition known_work : TagPair :=
  types_NewTagPair [Byte.x2a] "zzzzzzzzz" [Byte.x09] "work".

(** The pair the toy cipher builds for "work" from the counting source. *)
Definition created_work : TagPair :=
  types_NewTagPair [Byte.x09; Byte.x77; Byte.x6f; Byte.x72; Byte.x6b]
                   "abcdefghi" [Byte.x09] "work".

(** Rows to populate: one tag, two tags, and one without a nonce. *)
Definition row_work : Row := mkRow ["work"] [] [Byte.x41] [] [Byte.x07].

Definition row_work_2015 : Row :=
  mkRow ["work"; "2015"] ["stale"] [Byte.x41] [] [Byte.x07].

Definition row_no_nonce : Row := mkRow ["work"] ["stale"] [Byte.x41] [Byte.x00] [].

(** ** Further notions about the goroutines *)


(** The key a goroutine read is [key], and the pair it holds carries the
    encryption of its plaintext under [key] and the pair's own nonce. *)
Definition pair_encrypted `{!Crypto} (key : bytes) (pr : TagPair) : Prop :=
  Encrypt (list_byte_of_string (Plain pr)) (Nonce pr) key = inl (PlainEncrypted pr).

Definition task_encrypted `{!Crypto} (key : bytes) (t : Task) : Prop :=
  match stage t with
  | Launched => True
  | HasKey k | HasRandom k _ => k = key
  | HasPair pr | Returned (inl pr) | Sent (Some pr) => pair_encrypted key pr
  | Returned (inr _) | Sent None => True
  end.

(** The number of log entries a goroutine has written. *)
Definition logged (Debug : bool) (t : Task) : nat :=
  match stage t with
  | Sent None => 1
  | Sent (Some _) => if Debug then 1 else 0
  | _ => 0
  end.

Section Sequential.

Context {B : Type} `{!Backend B} `{!Crypto}.
Variable Debug : bool.

(** The goroutines run one after the other, each to its end. *)
Fixpoint run_each (chs : list Task) (w : World B) : World B * list Task :=
  match chs with
  | [] => (w, [])
  | t :: rest =>
      let '(w1, t1) := step_n Debug TASK_STEPS (w, t) in
      let '(w2, rest') := run_each rest w1 in
      (w2, t1 :: rest')
  end.

(** [CreateTag] called on each tag in turn, with the logging of the
    goroutine's body; the pairs of the calls that succeed are collected. *)
Fixpoint create_in_turn (tags : list string) (w : World B) : TagPairs * World B :=
  match tags with
  | [] => ([], w)
  | plain :: rest =>
      let '(r, w1) := CreateTag plain w in
      match r with
      | inr err =>
          create_in_turn rest
            (mkWorld (bk w1) (rng w1) (logs w1 ++ [LogCreateTagError plain err]))
      | inl pr =>
          let '(newPairs, w2) :=
            create_in_turn rest
              (if Debug
               then mkWorld (bk w1) (rng w1) (logs w1 ++ [LogCreated (Plain pr) (Random pr)])
               else w1) in
          (pr :: newPairs, w2)
      end
  end.

End Sequential.

(** Every channel of a concrete run delivered a pair. *)
Local Ltac all_delivered :=
  vm_compute; repeat (constructor; [eexists; reflexivity|]); constructor.

(** ** Facts about the helpers *)

Lemma SliceContains_spec (slice : list string) (s : string) :
  SliceContains slice s = true ↔ s ∈ slice.
Proof.
  induction slice as [|x rest IH]; simpl.
  - split; [discriminate | intros Hin; inversion Hin].
  - destruct (String.eqb_spec x s) as [->|Hne].
    + split; [intros _; left | reflexivity].
    + rewrite IH. split; [intros Hin; now right |].
      intros Hin. inversion Hin; subst; [congruence | assumption].
Qed.

Lemma SliceContains_false (slice : list string) (s : string) :
  SliceContains slice s = false ↔ s ∉ slice.
Proof.
  rewrite <- SliceContains_spec. destruct (SliceContains slice s); split; congruence.
Qed.

Lemma missing_tags_elem (existingPlain plaintags : list string) (p : string) :
  p ∈ missing_tags existingPlain plaintags ↔ p ∈ plaintags ∧ p ∉ existingPlain.
Proof.
  unfold missing_tags. rewrite !list_elem_of_In, filter_In, negb_true_iff.
  rewrite SliceContains_false, list_elem_of_In. reflexivity.
Qed.

Lemma missing_tags_sublist (existingPlain plaintags : list string) :
  missing_tags existingPlain plaintags `sublist_of` plaintags.
Proof.
  unfold missing_tags. induction plaintags as [|p rest IH]; simpl.
  - constructor.
  - destruct (negb _); constructor; assumption.
Qed.

Lemma string_get_elem (a : string) (k : nat) :
  k < String.length a →
  ∃ c, String.get k a = Some c ∧ c ∈ list_ascii_of_string a.
Proof.
  revert k. induction a as [|c a IH]; simpl; intros k Hk; [lia|].
  destruct k as [|k].
  - exists c. split; [reflexivity | left].
  - destruct (IH k) as (c' & Hget & Hin); [lia|].
    exists c'. split; [assumption | now right].
Qed.

(** [RandomString] returns [length] symbols, all of the alphabet, whatever
    the random source holds. *)
Lemma RandomString_shape (alphabet : string) (n : nat) (g : Rng) :
  alphabet ≠ EmptyString →
  String.length (RandomString alphabet n g).1 = n ∧
  Forall (fun c => c ∈ list_ascii_of_string alphabet)
         (list_ascii_of_string (RandomString alphabet n g).1).
Proof.
  intros Hne. revert g. induction n as [|n IH]; intros g; simpl.
  - split; [reflexivity | constructor].
  - destruct (RandomString alphabet n _) as [s g2] eqn:Hrec.
    specialize (IH (mkRng (tape g) (S (cursor g)))). rewrite Hrec in IH.
    simpl in *. destruct IH as [Hlen Hall]. split; [now rewrite Hlen|].
    constructor; [|assumption].
    destruct (string_get_elem alphabet (tape g (cursor g) mod String.length alphabet))
      as (c & -> & Hin); [|exact Hin].
    apply Nat.mod_upper_bound. destruct alphabet; simpl; [congruence | lia].
Qed.

Lemma RandomString_random_tag (g : Rng) :
  is_random_tag (RandomString RANDOM_TAG_ALPHABET (Z.to_nat RANDOM_TAG_LENGTH) g).1.
Proof.
  apply (RandomString_shape RANDOM_TAG_ALPHABET 9 g). discriminate.
Qed.

Lemma first_match_app (plain : string) (known new : TagPairs) :
  first_match plain (known ++ new) =
  match first_match plain known with
  | Some r => Some r
  | None => first_match plain new
  end.
Proof.
  induction known as [|pr rest IH]; simpl; [reflexivity|].
  destruct (decide (Plain pr = plain)); [reflexivity | exact IH].
Qed.

(** [first_match] really is the first match: nothing before it has the
    plaintext. *)
Lemma first_match_Some (plain : string) (allPairs : TagPairs) (r : string) :
  first_match plain allPairs = Some r ↔
  ∃ before pr after,
    allPairs = before ++ pr :: after ∧ Plain pr = plain ∧ Random pr = r ∧
    ∀ q, q ∈ before → Plain q ≠ plain.
Proof.
  revert r. induction allPairs as [|x rest IH]; intros r; simpl.
  - split; [discriminate|]. intros (before & pr & after & Heq & _).
    destruct before; discriminate.
  - destruct (decide (Plain x = plain)) as [Hx|Hx].
    + split.
      * intros [= <-]. exists [], x, rest. repeat split; try assumption.
        intros q Hq. inversion Hq.
      * intros (before & pr & after & Heq & Hp & Hr & Hbefore).
        destruct before as [|y before]; simpl in Heq; injection Heq as <- ->.
        -- now rewrite Hr.
        -- exfalso. apply (Hbefore x); [left | assumption].
    + rewrite IH. split.
      * intros (before & pr & after & -> & Hp & Hr & Hbefore).
        exists (x :: before), pr, after. repeat split; try assumption.
        intros q Hq. inversion Hq; subst; [assumption | now apply Hbefore].
      * intros (before & pr & after & Heq & Hp & Hr & Hbefore).
        destruct before as [|y before]; simpl in Heq; injection Heq as <- ->.
        -- congruence.
        -- exists before, pr, after. repeat split; try assumption.
           intros q Hq. apply Hbefore. now right.
Qed.

Lemma first_match_None (plain : string) (allPairs : TagPairs) :
  first_match plain allPairs = None ↔ ∀ pr, pr ∈ allPairs → Plain pr ≠ plain.
Proof.
  induction allPairs as [|x rest IH]; simpl.
  - split; [intros _ pr Hin; inversion Hin | reflexivity].
  - destruct (decide (Plain x = plain)) as [Hx|Hx].
    + split; [discriminate|]. intros Hall. exfalso. apply (Hall x); [left | assumption].
    + rewrite IH. split.
      * intros Hall pr Hin. inversion Hin; subst; [assumption | now apply Hall].
      * intros Hall pr Hin. apply Hall. now right.
Qed.

(** ** The resolution loops *)

(** The inner loop, read off the remaining elements: it runs out only on an
    empty slice, and reports a missing pair only at the last index. *)
Lemma scan_spec (plain : string) (rest : TagPairs) (i len : Z) :
  (i + Z.of_nat (length rest) = len)%Z →
  scan plain rest i len =
  match rest with
  | [] => Exhausted
  | _ :: _ =>
      match first_match plain rest with
      | Some r => Found r
      | None => NotFound
      end
  end.
Proof.
  revert i. induction rest as [|pr rest IH]; intros i Hlen; [reflexivity|].
  cbn [scan first_match].
  destruct (String.eqb_spec plain (Plain pr)) as [Heq|Hne].
  - destruct (decide (Plain pr = plain)); [reflexivity | congruence].
  - destruct (decide (Plain pr = plain)) as [Heq|_]; [congruence|].
    destruct rest as [|q rest].
    + simpl in Hlen. replace (i =? len - 1)%Z with true; [reflexivity|].
      symmetry. apply Z.eqb_eq. lia.
    + replace (i =? len - 1)%Z with false.
      * rewrite IH; [reflexivity|]. cbn [length] in *. lia.
      * symmetry. apply Z.eqb_neq. cbn [length] in Hlen. lia.
Qed.

Lemma omap_cons {A C : Type} (f : A → option C) (x : A) (l : list A) :
  omap f (x :: l) =
  match f x with
  | Some y => y :: omap f l
  | None => omap f l
  end.
Proof. reflexivity. Qed.

(** With no pair at all the outer loop appends nothing and reports
    nothing. *)
Lemma resolve_nil (plainTags randtags : list string) :
  resolve plainTags [] randtags = inl randtags.
Proof.
  induction plainTags as [|plain rest IH]; simpl; [reflexivity | exact IH].
Qed.

Lemma resolve_spec (plainTags : list string) (allPairs : TagPairs) (randtags : list string) :
  allPairs ≠ [] →
  resolve plainTags allPairs randtags =
  match first_unmatched plainTags allPairs with
  | Some plain => inr (ErrMissingTagPair plain)
  | None => inl (randtags ++ omap (fun plain => first_match plain allPairs) plainTags)
  end.
Proof.
  intros Hne. revert randtags.
  induction plainTags as [|plain rest IH]; intros randtags; cbn [resolve first_unmatched].
  - now rewrite app_nil_r.
  - rewrite scan_spec by lia.
    destruct allPairs as [|pr others]; [congruence|].
    rewrite omap_cons.
    destruct (first_match plain (pr :: others)) as [r|]; [|reflexivity].
    rewrite IH. destruct (first_unmatched rest (pr :: others)); [reflexivity|].
    now rewrite <- app_assoc.
Qed.

Lemma first_unmatched_Some (plainTags : list string) (allPairs : TagPairs) (p : string) :
  first_unmatched plainTags allPairs = Some p →
  p ∈ plainTags ∧ first_match p allPairs = None.
Proof.
  induction plainTags as [|plain rest IH]; simpl; [discriminate|].
  destruct (first_match plain allPairs) eqn:Hfm.
  - intros Hrest. destruct (IH Hrest). split; [now right | assumption].
  - intros [= <-]. split; [left | assumption].
Qed.

Lemma first_unmatched_None (plainTags : list string) (allPairs : TagPairs) :
  first_unmatched plainTags allPairs = None ↔
  ∀ p, p ∈ plainTags → first_match p allPairs ≠ None.
Proof.
  induction plainTags as [|plain rest IH]; simpl.
  - split; [intros _ p Hin; inversion Hin | reflexivity].
  - destruct (first_match plain allPairs) eqn:Hfm.
    + rewrite IH. split.
      * intros Hall p Hin. inversion Hin; subst; [congruence | now apply Hall].
      * intros Hall p Hin. apply Hall. now right.
    + split; [discriminate|]. intros Hall. exfalso. apply (Hall plain); [left | assumption].
Qed.

Lemma omap_first_match_length (plainTags : list string) (allPairs : TagPairs) :
  first_unmatched plainTags allPairs = None →
  length (omap (fun plain => first_match plain allPairs) plainTags) = length plainTags.
Proof.
  induction plainTags as [|plain rest IH]; cbn [first_unmatched]; [reflexivity|].
  rewrite omap_cons.
  destruct (first_match plain allPairs); [|discriminate].
  intros Hrest. cbn [length]. f_equal. now apply IH.
Qed.

(** A missing-pair error comes out of the resolution only for a plain tag of
    the row that no pair matches. *)
Lemma resolve_error (plainTags : list string) (allPairs : TagPairs)
    (randtags : list string) (e : error) :
  resolve plainTags allPairs randtags = inr e →
  ∃ p, e = ErrMissingTagPair p ∧ p ∈ plainTags ∧ first_match p allPairs = None.
Proof.
  destruct allPairs as [|pr others].
  - rewrite resolve_nil. discriminate.
  - rewrite resolve_spec by discriminate.
    destruct (first_unmatched plainTags (pr :: others)) as [p|] eqn:Hfu; [|discriminate].
    intros [= <-]. exists p. split; [reflexivity|]. now apply first_unmatched_Some.
Qed.

(** What the resolution appends: the first matches of the plain tags that
    have one, in order. *)
Lemma resolve_ok (plainTags : list string) (allPairs : TagPairs)
    (randtags rs : list string) :
  resolve plainTags allPairs randtags = inl rs →
  rs = randtags ++ omap (fun plain => first_match plain allPairs) plainTags.
Proof.
  destruct allPairs as [|pr others].
  - rewrite resolve_nil. intros [= <-].
    replace (omap _ plainTags) with (@nil string); [now rewrite app_nil_r|].
    induction plainTags as [|p rest IH]; [reflexivity | exact IH].
  - rewrite resolve_spec by discriminate.
    destruct (first_unmatched plainTags (pr :: others)); [discriminate|].
    now intros [= <-].
Qed.

(** ** The goroutines under an arbitrary schedule *)

Arguments RandomString : simpl never.

Section Goroutines.

Context {B : Type} `{!Backend B} `{!Crypto}.
Variable Debug : bool.

Lemma launch_spec (existingPlain plaintags : list string) (chs : list Task) :
  launch existingPlain plaintags chs =
  chs ++ map (fun plain => mkTask plain Launched) (missing_tags existingPlain plaintags).
Proof.
  revert chs. induction plaintags as [|plain rest IH]; intros chs; simpl.
  - now rewrite app_nil_r.
  - destruct (negb (SliceContains existingPlain plain)); simpl; rewrite IH.
    + now rewrite <- app_assoc.
    + reflexivity.
Qed.

Lemma drain_spec (chs : list Task) (newPairs : TagPairs) :
  drain chs newPairs = newPairs ++ omap receive chs.
Proof.
  revert newPairs. induction chs as [|t rest IH]; intros newPairs; cbn [drain].
  - now rewrite app_nil_r.
  - rewrite omap_cons. destruct (receive t); rewrite IH; [|reflexivity].
    now rewrite <- app_assoc.
Qed.

Lemma NewTagPair_finish_ok (key : bytes) (plaintag rand : string) (g : Rng) (pr : TagPair) :
  (NewTagPair_finish key plaintag rand g).1 = inl pr →
  Plain pr = plaintag ∧ Random pr = rand.
Proof.
  unfold NewTagPair_finish. destruct (RandomNonce g) as [[nonce|err] g1]; simpl.
  - destruct (Encrypt _ nonce key); simpl; intros [= <-]; split; reflexivity.
  - discriminate.
Qed.

Lemma CreateTag_save_ok (pr : TagPair) (b : B) (saved : TagPair) :
  (CreateTag_save pr b).1 = inl saved → saved = pr.
Proof.
  unfold CreateTag_save. destruct (SaveTagPair b pr) as [b1 [err|]]; simpl.
  - discriminate.
  - now intros [= <-].
Qed.

(** Left alone, a goroutine does what the body of the [go func] says: it
    calls [CreateTag], logs, and sends the pair or nil. *)
Lemma goroutine_runs_CreateTag (w : World B) (plain : string) :
  step_n Debug TASK_STEPS (w, mkTask plain Launched) =
  let '(r, w1) := CreateTag plain w in
  match r with
  | inr err =>
      (mkWorld (bk w1) (rng w1) (logs w1 ++ [LogCreateTagError plain err]),
       mkTask plain (Sent None))
  | inl pr =>
      (if Debug
       then mkWorld (bk w1) (rng w1) (logs w1 ++ [LogCreated (Plain pr) (Random pr)])
       else w1,
       mkTask plain (Sent (Some pr)))
  end.
Proof.
  unfold TASK_STEPS, CreateTag, NewTagPair. cbn [step_n step_task fst snd stage task_plain].
  destruct (RandomString _ _ _) as [rand g1]. cbn [step_task fst snd stage task_plain bk rng logs].
  destruct (NewTagPair_finish _ _ _ _) as [[pr|err] g2].
  - cbn [step_task fst snd stage task_plain bk rng logs].
    destruct (CreateTag_save pr (bk w)) as [[saved|err] b1];
      cbn [step_task fst snd stage task_plain bk rng logs]; [|reflexivity].
    destruct Debug; reflexivity.
  - reflexivity.
Qed.

Lemma step_task_plain (w : World B) (t : Task) :
  task_plain (step_task Debug w t).2 = task_plain t.
Proof.
  unfold step_task. destruct (stage t) as [| | | |[?|?]|]; simpl;
    repeat match goal with |- context [let '(_, _) := ?x in _] => destruct x end;
    reflexivity.
Qed.

Lemma step_task_ok (w : World B) (t : Task) :
  task_ok t → task_ok (step_task Debug w t).2.
Proof.
  unfold task_ok, step_task.
  destruct (stage t) as [|key|key rand|pr|[pr|err]|[pr|]] eqn:Hst.
  - trivial.
  - intros _.
    pose proof (RandomString_random_tag (rng w)) as Hr.
    destruct (RandomString _ _ _) as [rand g1]. exact Hr.
  - intros Hrand.
    pose proof (NewTagPair_finish_ok key (task_plain t) rand (rng w)) as Hfin.
    destruct (NewTagPair_finish _ _ _ _) as [[pr|err] g1]; cbn; [|trivial].
    destruct (Hfin pr eq_refl) as [Hp Hr]. split; [assumption | now rewrite Hr].
  - intros Hok.
    pose proof (CreateTag_save_ok pr (bk w)) as Hsave.
    destruct (CreateTag_save _ _) as [[saved|err] b1]; cbn; [|trivial].
    now rewrite (Hsave saved eq_refl).
  - trivial.
  - trivial.
  - cbn. rewrite Hst. trivial.
  - cbn. rewrite Hst. trivial.
Qed.

Lemma step_task_left (w : World B) (t : Task) :
  steps_left (stage (step_task Debug w t).2) ≤ pred (steps_left (stage t)).
Proof.
  unfold step_task. destruct (stage t) as [| | | |[?|?]|] eqn:Hst; simpl;
    repeat match goal with |- context [let '(_, _) := ?x in _] => destruct x as [[?|?] ?] end;
    repeat match goal with |- context [let '(_, _) := ?x in _] => destruct x end;
    simpl; try rewrite Hst; simpl; lia.
Qed.

Lemma step_at_length (i : nat) (s : World B * list Task) :
  length (step_at Debug i s).2 = length s.2.
Proof.
  unfold step_at. destruct (s.2 !! i) as [t|]; [|reflexivity].
  destruct (step_task Debug s.1 t) as [w1 t1]. simpl. apply length_insert.
Qed.

Lemma step_at_plains (i : nat) (s : World B * list Task) :
  map task_plain (step_at Debug i s).2 = map task_plain s.2.
Proof.
  unfold step_at. destruct (s.2 !! i) as [t|] eqn:Hi; [|reflexivity].
  pose proof (step_task_plain s.1 t) as Hp.
  destruct (step_task Debug s.1 t) as [w1 t1]. simpl in *.
  change (map task_plain) with (fmap (M := list) task_plain).
  rewrite list_fmap_insert, Hp. apply list_insert_id.
  now rewrite list_lookup_fmap, Hi.
Qed.

Lemma step_at_ok (i : nat) (s : World B * list Task) :
  Forall task_ok s.2 → Forall task_ok (step_at Debug i s).2.
Proof.
  intros Hall. unfold step_at. destruct (s.2 !! i) as [t|] eqn:Hi; [|assumption].
  pose proof (step_task_ok s.1 t) as Hok.
  destruct (step_task Debug s.1 t) as [w1 t1]. simpl in *.
  apply Forall_insert; [assumption|]. apply Hok.
  eapply Forall_lookup_1; eassumption.
Qed.

Lemma step_at_left (i j : nat) (s : World B * list Task) :
  left_at j (step_at Debug i s) ≤ left_at j s.
Proof.
  unfold left_at, step_at. destruct (s.2 !! i) as [t|] eqn:Hi; [|reflexivity].
  pose proof (step_task_left s.1 t) as Hleft.
  destruct (step_task Debug s.1 t) as [w1 t1]. simpl in *.
  destruct (decide (i = j)) as [->|Hne].
  - rewrite list_lookup_insert_eq by (eapply lookup_lt_Some; eassumption).
    rewrite Hi. simpl. lia.
  - now rewrite list_lookup_insert_ne.
Qed.

Lemma step_at_left_self (i : nat) (s : World B * list Task) :
  left_at i (step_at Debug i s) ≤ pred (left_at i s).
Proof.
  unfold left_at, step_at. destruct (s.2 !! i) as [t|] eqn:Hi.
  - pose proof (step_task_left s.1 t) as Hleft.
    destruct (step_task Debug s.1 t) as [w1 t1]. simpl in *.
    rewrite list_lookup_insert_eq by (eapply lookup_lt_Some; eassumption).
    exact Hleft.
  - rewrite Hi. reflexivity.
Qed.

Lemma run_app (s1 s2 : list nat) (s : World B * list Task) :
  run Debug (s1 ++ s2) s = run Debug s2 (run Debug s1 s).
Proof. unfold run. apply foldl_app. Qed.

Lemma run_length (sched : list nat) (s : World B * list Task) :
  length (run Debug sched s).2 = length s.2.
Proof.
  revert s. induction sched as [|i sched IH]; intros s; [reflexivity|].
  simpl. rewrite IH. apply step_at_length.
Qed.

Lemma run_plains (sched : list nat) (s : World B * list Task) :
  map task_plain (run Debug sched s).2 = map task_plain s.2.
Proof.
  revert s. induction sched as [|i sched IH]; intros s; [reflexivity|].
  simpl. rewrite IH. apply step_at_plains.
Qed.

Lemma run_ok (sched : list nat) (s : World B * list Task) :
  Forall task_ok s.2 → Forall task_ok (run Debug sched s).2.
Proof.
  revert s. induction sched as [|i sched IH]; intros s Hall; [assumption|].
  simpl. apply IH. now apply step_at_ok.
Qed.

Lemma run_left (sched : list nat) (j : nat) (s : World B * list Task) :
  left_at j (run Debug sched s) ≤ left_at j s.
Proof.
  revert s. induction sched as [|i sched IH]; intros s; [reflexivity|].
  simpl. etransitivity; [apply IH | apply step_at_left].
Qed.

Lemma run_replicate_left (n i : nat) (s : World B * list Task) :
  left_at i (run Debug (replicate n i) s) ≤ left_at i s - n.
Proof.
  revert s. induction n as [|n IH]; intros s; simpl; [lia|].
  etransitivity; [apply IH|]. pose proof (step_at_left_self i s). lia.
Qed.

(** The completing schedule leaves no goroutine with a step to take. *)
Lemma completion_left (a n j : nat) (s : World B * list Task) :
  a ≤ j < a + n →
  left_at j (run Debug (flat_map (fun i => replicate TASK_STEPS i) (seq a n)) s) = 0.
Proof.
  revert a s. induction n as [|n IH]; intros a s Hj; [lia|].
  cbn [seq flat_map]. rewrite run_app.
  destruct (decide (j = a)) as [->|Hne].
  - pose proof (run_left (flat_map (fun i => replicate TASK_STEPS i) (seq (S a) n)) a
                  (run Debug (replicate TASK_STEPS a) s)) as H1.
    pose proof (run_replicate_left TASK_STEPS a s) as H2.
    assert (left_at a s ≤ 5) as H3.
    { unfold left_at. destruct (s.2 !! a) as [t|]; simpl; [|lia].
      destruct (stage t); simpl; lia. }
    unfold TASK_STEPS in *. lia.
  - apply IH. lia.
Qed.

Lemma left_at_sent (j : nat) (s : World B * list Task) (t : Task) :
  s.2 !! j = Some t → left_at j s = 0 → is_sent t.
Proof.
  unfold left_at, is_sent. intros ->. simpl. destruct (stage t); simpl; (lia || trivial).
Qed.

(** Every goroutine sends, whatever the schedule. *)
Lemma run_tasks_sent (sched : list nat) (w : World B) (plaintags : list string)
    (pairs : TagPairs) :
  Forall is_sent (run_tasks Debug sched w plaintags pairs).2.
Proof.
  unfold run_tasks. set (chs := launch (AllPlain pairs) plaintags []).
  apply Forall_lookup_2. intros j t Hj.
  eapply left_at_sent; [exact Hj|].
  rewrite run_app. unfold completion. apply completion_left.
  apply lookup_lt_Some in Hj. rewrite run_length in Hj. simpl in Hj. lia.
Qed.

Lemma run_tasks_plains (sched : list nat) (w : World B) (plaintags : list string)
    (pairs : TagPairs) :
  map task_plain (run_tasks Debug sched w plaintags pairs).2 =
  missing_tags (AllPlain pairs) plaintags.
Proof.
  unfold run_tasks. rewrite run_plains. simpl. rewrite launch_spec. simpl.
  rewrite map_map. simpl. apply map_id.
Qed.

Lemma run_tasks_ok (sched : list nat) (w : World B) (plaintags : list string)
    (pairs : TagPairs) :
  Forall task_ok (run_tasks Debug sched w plaintags pairs).2.
Proof.
  unfold run_tasks. apply run_ok. simpl. rewrite launch_spec. simpl.
  apply Forall_forall. intros t Hin. apply list_elem_of_In, in_map_iff in Hin.
  destruct Hin as (p & <- & _). exact I.
Qed.

Lemma CreateTagsFromPlain_eq (sched : list nat) (w : World B)
    (plaintags : list string) (pairs : TagPairs) :
  CreateTagsFromPlain Debug sched w plaintags pairs =
  ((omap receive (run_tasks Debug sched w plaintags pairs).2, None),
   (run_tasks Debug sched w plaintags pairs).1).
Proof.
  unfold CreateTagsFromPlain. destruct (run_tasks _ _ _ _ _) as [w1 chs].
  now rewrite drain_spec.
Qed.

End Goroutines.

(** ** Batch creation *)

Section BatchCreation.

Context {B : Type} `{!Backend B} `{!Crypto}.
Variable Debug : bool.

Lemma omap_receive_delivered (chs : list Task) :
  omap receive chs = omap id (map receive chs).
Proof.
  induction chs as [|t rest IH]; [reflexivity|].
  cbn [map]. rewrite !omap_cons, IH. reflexivity.
Qed.

Lemma failed_slots_length (results : list (option TagPair)) :
  length (omap id results) + failed_slots results = length results.
Proof.
  induction results as [|[pr|] rest IH]; [reflexivity| |];
    rewrite omap_cons; cbn [failed_slots id length]; lia.
Qed.

Lemma received_plains (chs : list Task) :
  Forall task_ok chs →
  map Plain (omap receive chs) = remove_failed (map task_plain chs) (map receive chs).
Proof.
  induction 1 as [|t rest Hok _ IH]; [reflexivity|].
  rewrite omap_cons. cbn [map remove_failed].
  destruct t as [plain st]. unfold task_ok in Hok. cbn [stage task_plain] in *.
  change (receive (mkTask plain st)) with (match st with Sent p => p | _ => None end).
  destruct st as [| | | | |[pr|]]; cbn [map]; try exact IH.
  destruct Hok as [-> _]. now rewrite IH.
Qed.

Lemma received_random_tags (chs : list Task) :
  Forall task_ok chs →
  Forall (fun np => is_random_tag (Random np)) (omap receive chs).
Proof.
  induction 1 as [|t rest Hok _ IH]; [constructor|].
  rewrite omap_cons.
  destruct t as [plain st]. unfold task_ok in Hok. cbn [stage task_plain] in *.
  change (receive (mkTask plain st)) with (match st with Sent p => p | _ => None end).
  destruct st as [| | | | |[pr|]]; try exact IH.
  constructor; [apply Hok | exact IH].
Qed.

Lemma remove_failed_sublist (tags : list string) (results : list (option TagPair)) :
  remove_failed tags results `sublist_of` tags.
Proof.
  revert results. induction tags as [|t tags IH]; intros [|[pr|] results]; simpl;
    try apply sublist_nil_l.
  - now apply sublist_skip.
  - now apply sublist_cons.
Qed.

Lemma remove_failed_all (tags : list string) (results : list (option TagPair)) :
  length results = length tags → Forall is_Some results →
  remove_failed tags results = tags.
Proof.
  intros Hlen Hall. revert tags Hlen.
  induction Hall as [|r results [pr ->] _ IH]; intros [|t tags] Hlen;
    simpl in *; try reflexivity; try lia.
  f_equal. apply IH. lia.
Qed.

Lemma delivered_length (sched : list nat) (w : World B) (plaintags : list string)
    (pairs : TagPairs) :
  length (delivered Debug sched w plaintags pairs) =
  length (missing_tags (AllPlain pairs) plaintags).
Proof.
  unfold delivered. rewrite length_map, <- (run_tasks_plains Debug sched w).
  now rewrite length_map.
Qed.

Lemma newPairs_plains (sched : list nat) (w : World B) (plaintags : list string)
    (pairs : TagPairs) :
  map Plain (CreateTagsFromPlain Debug sched w plaintags pairs).1.1 =
  remove_failed (missing_tags (AllPlain pairs) plaintags)
                (delivered Debug sched w plaintags pairs).
Proof.
  rewrite CreateTagsFromPlain_eq. cbn [fst snd].
  rewrite received_plains by apply run_tasks_ok.
  now rewrite run_tasks_plains.
Qed.

Lemma occurrences_missing (existingPlain plaintags : list string) (p : string) :
  p ∉ existingPlain →
  occurrences p (missing_tags existingPlain plaintags) = occurrences p plaintags.
Proof.
  intros Hp. unfold occurrences, missing_tags.
  induction plaintags as [|q rest IH]; [reflexivity|]. cbn [List.filter].
  destruct (String.eqb_spec p q) as [<-|Hne].
  - apply SliceContains_false in Hp. rewrite Hp. cbn [negb List.filter].
    rewrite String.eqb_refl. cbn [length]. now rewrite IH.
  - destruct (negb (SliceContains existingPlain q)); cbn [List.filter]; [|exact IH].
    destruct (String.eqb_spec p q); [congruence | exact IH].
Qed.

Lemma occurrences_elem (p : string) (l : list string) :
  p ∈ l → 1 ≤ occurrences p l.
Proof.
  unfold occurrences. induction 1 as [p l|p q l _ IH]; cbn [List.filter].
  - rewrite String.eqb_refl. cbn [length]. lia.
  - destruct (String.eqb p q); cbn [length]; lia.
Qed.

(** C2: the error that [CreateTagsFromPlain] returns is nil for every
    backend, crypto capability, schedule, list of plaintags and set of known
    pairs, whatever the goroutines deliver: the new pairs are the non-nil
    deliveries, so a failed creation only makes the result shorter. *)
Theorem CreateTagsFromPlain_error_is_nil (sched : list nat) (w : World B)
    (plaintags : list string) (pairs : TagPairs) :
  (CreateTagsFromPlain Debug sched w plaintags pairs).1.2 = None ∧
  (CreateTagsFromPlain Debug sched w plaintags pairs).1.1 =
    omap id (delivered Debug sched w plaintags pairs) ∧
  length (CreateTagsFromPlain Debug sched w plaintags pairs).1.1 +
    failed_slots (delivered Debug sched w plaintags pairs) =
    length (missing_tags (AllPlain pairs) plaintags).
Proof.
  rewrite CreateTagsFromPlain_eq. cbn [fst snd]. unfold delivered.
  rewrite omap_receive_delivered. repeat split.
  rewrite failed_slots_length, length_map, <- (run_tasks_plains Debug sched w).
  now rewrite length_map.
Qed.

(** C3: under every schedule of the goroutines, the plaintexts of the pairs
    that [CreateTagsFromPlain] returns are the missing plaintags in the order
    of the scan of [plaintags], with the entries whose creation failed
    removed; in particular they are a subsequence of [plaintags]. *)
Theorem CreateTagsFromPlain_keeps_order (sched : list nat) (w : World B)
    (plaintags : list string) (pairs : TagPairs) :
  length (delivered Debug sched w plaintags pairs) =
    length (missing_tags (AllPlain pairs) plaintags) ∧
  map Plain (CreateTagsFromPlain Debug sched w plaintags pairs).1.1 =
    remove_failed (missing_tags (AllPlain pairs) plaintags)
                  (delivered Debug sched w plaintags pairs) ∧
  map Plain (CreateTagsFromPlain Debug sched w plaintags pairs).1.1
    `sublist_of` plaintags.
Proof.
  split; [apply delivered_length|]. split; [apply newPairs_plains|].
  rewrite newPairs_plains. etransitivity.
  - apply remove_failed_sublist.
  - apply missing_tags_sublist.
Qed.

(** C4, as amended: when every creation succeeds, a plaintag [p] that occurs
    in [plaintags] and is not among the plaintexts of the known pairs gets
    one new pair per occurrence in [plaintags] (exactly one when it occurs
    once, at least one always), and the random tag of every new pair is nine
    symbols of the 36-symbol alphabet. *)
Theorem CreateTagsFromPlain_one_pair_per_occurrence (sched : list nat) (w : World B)
    (plaintags : list string) (pairs : TagPairs) (p : string) :
  p ∈ plaintags →
  p ∉ AllPlain pairs →
  Forall is_Some (delivered Debug sched w plaintags pairs) →
  occurrences p (map Plain (CreateTagsFromPlain Debug sched w plaintags pairs).1.1) =
    occurrences p plaintags ∧
  1 ≤ occurrences p (map Plain (CreateTagsFromPlain Debug sched w plaintags pairs).1.1) ∧
  Forall (fun np => is_random_tag (Random np))
         (CreateTagsFromPlain Debug sched w plaintags pairs).1.1 ∧
  String.length RANDOM_TAG_ALPHABET = 36.
Proof.
  intros Hin Hnew Hall.
  assert (occurrences p (map Plain (CreateTagsFromPlain Debug sched w plaintags pairs).1.1) =
          occurrences p plaintags) as Hocc.
  { rewrite newPairs_plains, remove_failed_all; [now apply occurrences_missing | |assumption].
    apply delivered_length. }
  split; [exact Hocc|]. split.
  - rewrite Hocc. now apply occurrences_elem.
  - split; [|reflexivity]. rewrite CreateTagsFromPlain_eq. cbn [fst snd].
    apply received_random_tags, run_tasks_ok.
Qed.

(** C5: a plaintag that is among the plaintexts of the known pairs is the
    plaintext of none of the pairs that [CreateTagsFromPlain] returns. *)
Theorem CreateTagsFromPlain_known_not_recreated (sched : list nat) (w : World B)
    (plaintags : list string) (pairs : TagPairs) (p : string) :
  p ∈ AllPlain pairs →
  p ∉ map Plain (CreateTagsFromPlain Debug sched w plaintags pairs).1.1.
Proof.
  intros Hknown Hin. rewrite newPairs_plains in Hin.
  eapply elem_of_sublist in Hin; [|apply remove_failed_sublist].
  apply missing_tags_elem in Hin. now destruct Hin.
Qed.

End BatchCreation.

(** ** Row population *)

Section RowPopulation.

Context {B : Type} `{!Backend B} `{!Crypto}.
Variable Debug : bool.

(** [PopulateRowBeforeSave] after batch creation, the nil check on its error
    resolved. *)
Lemma PopulateRowBeforeSave_eq (sched : list nat) (w : World B) (row : Row)
    (pairs : TagPairs) :
  PopulateRowBeforeSave Debug sched w row pairs =
  let created := CreateTagsFromPlain Debug sched w (PlainTags row) pairs in
  match resolve (PlainTags row) (pairs ++ created.1.1) [] with
  | inr e => ((created.1.1, Some e), row, created.2)
  | inl randtags =>
      match Encrypt (Decrypted row) (RowNonce row) (Key (bk created.2)) with
      | inr e =>
          ((created.1.1, Some (ErrEncrypting e)),
           mkRow (PlainTags row) randtags (Decrypted row) (Encrypted row) (RowNonce row),
           created.2)
      | inl encData =>
          ((created.1.1, None),
           mkRow (PlainTags row) randtags (Decrypted row) encData (RowNonce row),
           created.2)
      end
  end.
Proof.
  unfold PopulateRowBeforeSave. rewrite CreateTagsFromPlain_eq. reflexivity.
Qed.

(** With no pair at all, known or new, no missing pair is ever reported and
    nothing is resolved. *)
Lemma PopulateRowBeforeSave_no_pairs (sched : list nat) (w : World B) (row : Row)
    (pairs : TagPairs) :
  pairs ++ (PopulateRowBeforeSave Debug sched w row pairs).1.1.1 = [] →
  RandomTags (PopulateRowBeforeSave Debug sched w row pairs).1.2 = [] ∧
  ∀ p, (PopulateRowBeforeSave Debug sched w row pairs).1.1.2 ≠ Some (ErrMissingTagPair p).
Proof.
  rewrite PopulateRowBeforeSave_eq. cbn zeta.
  set (created := CreateTagsFromPlain Debug sched w (PlainTags row) pairs).
  intros Hnil.
  assert (pairs ++ created.1.1 = []) as ->.
  { destruct (resolve _ _ _); [destruct (Encrypt _ _ _)|]; exact Hnil. }
  rewrite resolve_nil. destruct (Encrypt _ _ _); split; (reflexivity || discriminate).
Qed.

(** With at least one pair, a plain tag of the row that no pair matches makes
    [PopulateRowBeforeSave] fail, naming the first such tag. *)
Lemma PopulateRowBeforeSave_unmatched (sched : list nat) (w : World B) (row : Row)
    (pairs : TagPairs) (p : string) :
  pairs ++ (PopulateRowBeforeSave Debug sched w row pairs).1.1.1 ≠ [] →
  first_unmatched (PlainTags row)
    (pairs ++ (PopulateRowBeforeSave Debug sched w row pairs).1.1.1) = Some p →
  (PopulateRowBeforeSave Debug sched w row pairs).1.1.2 = Some (ErrMissingTagPair p).
Proof.
  rewrite PopulateRowBeforeSave_eq. cbn zeta.
  set (created := CreateTagsFromPlain Debug sched w (PlainTags row) pairs).
  intros Hne Hfirst.
  assert (pairs ++ created.1.1 ≠ [] ∧
          first_unmatched (PlainTags row) (pairs ++ created.1.1) = Some p) as [Hne' Hfirst'].
  { destruct (resolve _ _ _); [destruct (Encrypt _ _ _)|]; split; assumption. }
  rewrite resolve_spec, Hfirst' by assumption. reflexivity.
Qed.

(** With at least one pair, a successful call leaves one random tag per
    plain tag of the row. *)
Lemma PopulateRowBeforeSave_randomTags_length (sched : list nat) (w : World B)
    (row : Row) (pairs : TagPairs) :
  pairs ++ (PopulateRowBeforeSave Debug sched w row pairs).1.1.1 ≠ [] →
  (PopulateRowBeforeSave Debug sched w row pairs).1.1.2 = None →
  length (RandomTags (PopulateRowBeforeSave Debug sched w row pairs).1.2) =
  length (PlainTags row).
Proof.
  rewrite PopulateRowBeforeSave_eq. cbn zeta.
  set (created := CreateTagsFromPlain Debug sched w (PlainTags row) pairs).
  intros Hne.
  assert (pairs ++ created.1.1 ≠ []) as Hne'.
  { destruct (resolve _ _ _); [destruct (Encrypt _ _ _)|]; exact Hne. }
  rewrite resolve_spec by assumption.
  destruct (first_unmatched (PlainTags row) (pairs ++ created.1.1)) eqn:Hfu; [discriminate|].
  destruct (Encrypt _ _ _); [|discriminate].
  intros _. cbn [fst snd RandomTags]. now apply omap_first_match_length.
Qed.

(** C6: unless a missing pair is reported, the random tags that
    [PopulateRowBeforeSave] stores in the row are, for the plain tags of the
    row in order, the [random] of the first pair with that plaintext in
    [knownPairs ++ newPairs]; the known pairs are scanned before the new
    ones, and the inner loop finds exactly this first match. *)
Theorem PopulateRowBeforeSave_first_match_wins (sched : list nat) (w : World B)
    (row : Row) (pairs : TagPairs) :
  (∀ p, (PopulateRowBeforeSave Debug sched w row pairs).1.1.2 ≠ Some (ErrMissingTagPair p)) →
  let newPairs := (PopulateRowBeforeSave Debug sched w row pairs).1.1.1 in
  RandomTags (PopulateRowBeforeSave Debug sched w row pairs).1.2 =
    omap (fun plain => first_match plain (pairs ++ newPairs)) (PlainTags row) ∧
  (∀ plain r,
     scan plain (pairs ++ newPairs) 0 (Z.of_nat (length (pairs ++ newPairs))) = Found r ↔
     first_match plain (pairs ++ newPairs) = Some r) ∧
  (∀ plain,
     first_match plain (pairs ++ newPairs) =
     match first_match plain pairs with
     | Some r => Some r
     | None => first_match plain newPairs
     end).
Proof.
  intros Herr newPairs. split; [|split].
  - revert Herr. subst newPairs. rewrite PopulateRowBeforeSave_eq. cbn zeta.
    set (created := CreateTagsFromPlain Debug sched w (PlainTags row) pairs).
    destruct (resolve (PlainTags row) (pairs ++ created.1.1) []) as [randtags|e] eqn:Hres.
    + apply resolve_ok in Hres. destruct (Encrypt _ _ _); intros _; exact Hres.
    + apply resolve_error in Hres. destruct Hres as (p & -> & _).
      intros Herr. exfalso. now apply (Herr p).
  - intros plain r. rewrite scan_spec by lia.
    destruct (pairs ++ newPairs) as [|pr others]; [split; discriminate|].
    destruct (first_match plain (pr :: others)); split; congruence.
  - intros plain. apply first_match_app.
Qed.

(** C7: when [PopulateRowBeforeSave] returns the missing-pair error for a tag
    [p], then [p] is a plain tag of the row that no pair of
    [knownPairs ++ newPairs] matches, the message names [p], and the row is
    returned as it was: neither [Encrypted] nor [RandomTags] changed. *)
Theorem PopulateRowBeforeSave_missing_pair_error (sched : list nat) (w : World B)
    (row : Row) (pairs : TagPairs) (p : string) :
  (PopulateRowBeforeSave Debug sched w row pairs).1.1.2 = Some (ErrMissingTagPair p) →
  p ∈ PlainTags row ∧
  (∀ pr, pr ∈ pairs ++ (PopulateRowBeforeSave Debug sched w row pairs).1.1.1 →
         Plain pr ≠ p) ∧
  Error (ErrMissingTagPair p) =
    "No corresponding TagPair found for plain tag `" +:+ p +:+ "`" ∧
  Encrypted (PopulateRowBeforeSave Debug sched w row pairs).1.2 = Encrypted row ∧
  RandomTags (PopulateRowBeforeSave Debug sched w row pairs).1.2 = RandomTags row ∧
  (PopulateRowBeforeSave Debug sched w row pairs).1.2 = row.
Proof.
  rewrite PopulateRowBeforeSave_eq. cbn zeta.
  set (created := CreateTagsFromPlain Debug sched w (PlainTags row) pairs).
  destruct (resolve (PlainTags row) (pairs ++ created.1.1) []) as [randtags|e] eqn:Hres.
  - destruct (Encrypt _ _ _); discriminate.
  - cbn [fst snd]. intros [= ->]. apply resolve_error in Hres.
    destruct Hres as (q & [= <-] & Hin & Hnone).
    repeat split; try assumption. now apply first_match_None.
Qed.

(** C9: when [PopulateRowBeforeSave] returns an error, its first result is
    still the list of pairs that batch creation returned, and the world it
    leaves, the backend with every pair saved into it included, is the one
    the goroutines left: nothing is undone. *)
Theorem PopulateRowBeforeSave_error_keeps_new_pairs (sched : list nat) (w : World B)
    (row : Row) (pairs : TagPairs) (e : error) :
  (PopulateRowBeforeSave Debug sched w row pairs).1.1.2 = Some e →
  (PopulateRowBeforeSave Debug sched w row pairs).1.1.1 =
    (CreateTagsFromPlain Debug sched w (PlainTags row) pairs).1.1 ∧
  (PopulateRowBeforeSave Debug sched w row pairs).2 =
    (CreateTagsFromPlain Debug sched w (PlainTags row) pairs).2 ∧
  (PopulateRowBeforeSave Debug sched w row pairs).2 =
    (run_tasks Debug sched w (PlainTags row) pairs).1.
Proof.
  intros _. rewrite PopulateRowBeforeSave_eq. cbn zeta.
  set (created := CreateTagsFromPlain Debug sched w (PlainTags row) pairs).
  assert (created.2 = (run_tasks Debug sched w (PlainTags row) pairs).1) as Hw.
  { subst created. now rewrite CreateTagsFromPlain_eq. }
  destruct (resolve _ _ _); [destruct (Encrypt _ _ _)|]; cbn [fst snd]; auto.
Qed.

(** C10: when every plain tag of the row has a pair in
    [knownPairs ++ newPairs] and the encryption of the payload fails, the
    call returns the encryption error, [Encrypted] is unchanged and
    [RandomTags] already holds the newly resolved random tags, one per plain
    tag. *)
Theorem PopulateRowBeforeSave_encrypt_failure (sched : list nat) (w : World B)
    (row : Row) (pairs : TagPairs) (e : error) :
  let created := CreateTagsFromPlain Debug sched w (PlainTags row) pairs in
  (∀ plain, plain ∈ PlainTags row →
     ∃ pr, pr ∈ pairs ++ created.1.1 ∧ Plain pr = plain) →
  Encrypt (Decrypted row) (RowNonce row) (Key (bk created.2)) = inr e →
  (PopulateRowBeforeSave Debug sched w row pairs).1.1.2 = Some (ErrEncrypting e) ∧
  Encrypted (PopulateRowBeforeSave Debug sched w row pairs).1.2 = Encrypted row ∧
  RandomTags (PopulateRowBeforeSave Debug sched w row pairs).1.2 =
    omap (fun plain => first_match plain (pairs ++ created.1.1)) (PlainTags row) ∧
  length (RandomTags (PopulateRowBeforeSave Debug sched w row pairs).1.2) =
    length (PlainTags row).
Proof.
  intros created Hall Henc. rewrite PopulateRowBeforeSave_eq. cbn zeta.
  fold created. rewrite Henc.
  assert (first_unmatched (PlainTags row) (pairs ++ created.1.1) = None) as Hnone.
  { apply first_unmatched_None. intros p Hin Hfm.
    destruct (Hall p Hin) as (pr & Hpr & Hplain).
    rewrite first_match_None in Hfm. now apply (Hfm pr). }
  assert (resolve (PlainTags row) (pairs ++ created.1.1) [] =
          inl (omap (fun plain => first_match plain (pairs ++ created.1.1)) (PlainTags row)))
    as ->.
  { destruct (pairs ++ created.1.1) as [|pr others] eqn:Hpairs.
    - rewrite resolve_nil. destruct (PlainTags row) as [|p rest]; [reflexivity|].
      destruct (Hall p) as (pr & Hpr & _); [left | inversion Hpr].
    - rewrite resolve_spec, Hnone by discriminate. reflexivity. }
  cbn [fst snd RandomTags Encrypted]. repeat split.
  now apply omap_first_match_length.
Qed.

End RowPopulation.

(** ** The pipeline on the in-memory backend *)

(** C4, as stated, fails: with plaintags ["a"; "a"], no known pair and both
    creations succeeding, two new pairs carry the plaintext "a", not one. *)
Lemma CreateTagsFromPlain_duplicate_plaintag :
  ¬ ("a" ∈ ["a"; "a"] →
     "a" ∉ AllPlain [] →
     Forall is_Some (delivered false [] (mem0 []) ["a"; "a"] []) →
     occurrences "a"
       (map Plain (CreateTagsFromPlain false [] (mem0 []) ["a"; "a"] []).1.1) = 1).
Proof.
  intros Hclaim.
  assert (occurrences "a"
            (map Plain (CreateTagsFromPlain false [] (mem0 []) ["a"; "a"] []).1.1) = 2)
    as Htwo by (vm_compute; reflexivity).
  rewrite Hclaim in Htwo.
  - discriminate.
  - constructor.
  - apply SliceContains_false. reflexivity.
  - all_delivered.
Qed.

Lemma CreateTagsFromPlain_one_pair_per_occurrence_witness :
  "a" ∈ ["a"; "b"; "a"] ∧
("a" ∉ AllPlain [known_work]) ∧
  Forall is_Some (delivered false [1; 0; 1] (mem0 []) ["a"; "b"; "a"] [known_work]) ∧
  occurrences "a"
    (map Plain (CreateTagsFromPlain false [1; 0; 1] (mem0 []) ["a"; "b"; "a"] [known_work]).1.1)
  = occurrences "a" ["a"; "b"; "a"].
Proof.
  split; [constructor|].
  split; [apply SliceContains_false; reflexivity|].
  split; [all_delivered|].
  apply (CreateTagsFromPlain_one_pair_per_occurrence
           false [1; 0; 1] (mem0 []) ["a"; "b"; "a"] [known_work] "a").
  - constructor.
  - apply SliceContains_false. reflexivity.
  - all_delivered.
Defined.

Lemma CreateTagsFromPlain_known_not_recreated_witness :
  "work" ∈ AllPlain [known_work] ∧
  "work" ∉ map Plain
    (CreateTagsFromPlain false [] (mem0 []) ["work"; "2015"] [known_work]).1.1.
Proof.
  split; [constructor|].
  apply (CreateTagsFromPlain_known_not_recreated
           false [] (mem0 []) ["work"; "2015"] [known_work] "work").
  constructor.
Defined.

(** C1 at its failing input: the backend refuses to save the pair for
    "work", so no pair exists at all; the row's tag "work" has no pair, and
    yet no error comes back. *)
Example PopulateRowBeforeSave_unmatched_tag_not_reported :
  "work" ∈ PlainTags row_work ∧
  [] ++ (PopulateRowBeforeSave false [] (mem0 ["work"]) row_work []).1.1.1 = [] ∧
  (PopulateRowBeforeSave false [] (mem0 ["work"]) row_work []).1.1.2 = None.
Proof. split; [constructor|]. split; vm_compute; reflexivity. Qed.

(** C8 at the same input: the call succeeds and leaves the row with one
    plain tag and no random tag. *)
Example PopulateRowBeforeSave_randomTags_too_short :
  (PopulateRowBeforeSave false [] (mem0 ["work"]) row_work []).1.1.2 = None ∧
  PlainTags (PopulateRowBeforeSave false [] (mem0 ["work"]) row_work []).1.2 = ["work"] ∧
  RandomTags (PopulateRowBeforeSave false [] (mem0 ["work"]) row_work []).1.2 = [].
Proof. repeat split; vm_compute; reflexivity. Qed.

Lemma PopulateRowBeforeSave_first_match_wins_witness :
  (∀ p, (PopulateRowBeforeSave false [1; 0] (mem0 []) row_work_2015 [known_work]).1.1.2
        ≠ Some (ErrMissingTagPair p)) ∧
  RandomTags (PopulateRowBeforeSave false [1; 0] (mem0 []) row_work_2015 [known_work]).1.2 =
    omap (fun plain =>
            first_match plain
              ([known_work] ++
               (PopulateRowBeforeSave false [1; 0] (mem0 []) row_work_2015 [known_work]).1.1.1))
         (PlainTags row_work_2015).
Proof.
  split; [intros p; vm_compute; discriminate|].
  apply (PopulateRowBeforeSave_first_match_wins
           false [1; 0] (mem0 []) row_work_2015 [known_work]).
  intros p. vm_compute. discriminate.
Defined.

Lemma PopulateRowBeforeSave_missing_pair_error_witness :
  (PopulateRowBeforeSave false [] (mem0 ["2015"]) row_work_2015 []).1.1.2 =
    Some (ErrMissingTagPair "2015") ∧
  (PopulateRowBeforeSave false [] (mem0 ["2015"]) row_work_2015 []).1.2 = row_work_2015.
Proof.
  split; [vm_compute; reflexivity|].
  apply (PopulateRowBeforeSave_missing_pair_error
           false [] (mem0 ["2015"]) row_work_2015 [] "2015").
  vm_compute. reflexivity.
Defined.

Lemma PopulateRowBeforeSave_error_keeps_new_pairs_witness :
  (PopulateRowBeforeSave false [0; 1] (mem0 ["2015"]) row_work_2015 []).1.1.2 =
    Some (ErrMissingTagPair "2015") ∧
  (PopulateRowBeforeSave false [0; 1] (mem0 ["2015"]) row_work_2015 []).2 =
    (CreateTagsFromPlain false [0; 1] (mem0 ["2015"]) (PlainTags row_work_2015) []).2.
Proof.
  assert ((PopulateRowBeforeSave false [0; 1] (mem0 ["2015"]) row_work_2015 []).1.1.2 =
          Some (ErrMissingTagPair "2015")) as Herr by (vm_compute; reflexivity).
  split; [exact Herr|].
  exact (proj1 (proj2 (PopulateRowBeforeSave_error_keeps_new_pairs
                         false [0; 1] (mem0 ["2015"]) row_work_2015 []
                         (ErrMissingTagPair "2015") Herr))).
Defined.

Lemma PopulateRowBeforeSave_encrypt_failure_witness :
  Encrypt (Decrypted row_no_nonce) (RowNonce row_no_nonce)
    (Key (bk (CreateTagsFromPlain false [] (mem0 []) (PlainTags row_no_nonce) [known_work]).2))
    = inr (ErrExternal "nil nonce") ∧
  (PopulateRowBeforeSave false [] (mem0 []) row_no_nonce [known_work]).1.1.2 =
    Some (ErrEncrypting (ErrExternal "nil nonce")).
Proof.
  split; [vm_compute; reflexivity|].
  apply (PopulateRowBeforeSave_encrypt_failure
           false [] (mem0 []) row_no_nonce [known_work] (ErrExternal "nil nonce")).
  - intros plain Hin. exists known_work. split; [constructor|].
    apply list_elem_of_singleton in Hin. now rewrite Hin.
  - vm_compute. reflexivity.
Defined.

(** ** Single tag creation *)

Section SingleCreation.

Context {B : Type} `{!Backend B} `{!Crypto}.

Lemma NewTagPair_finish_inv (key : bytes) (plaintag rand : string) (g : Rng) (pr : TagPair) :
  (NewTagPair_finish key plaintag rand g).1 = inl pr →
  Plain pr = plaintag ∧ Random pr = rand ∧
  (RandomNonce g).1 = inl (Nonce pr) ∧
  Encrypt (list_byte_of_string plaintag) (Nonce pr) key = inl (PlainEncrypted pr).
Proof.
  unfold NewTagPair_finish. destruct (RandomNonce g) as [[nonce|err] g1]; cbn [fst snd].
  - destruct (Encrypt _ nonce key) as [plainEnc|err] eqn:Henc; cbn [fst];
      intros [= <-]; cbn [Plain Random Nonce PlainEncrypted]; auto.
  - discriminate.
Qed.

Lemma NewTagPair_finish_rng (key : bytes) (plaintag rand : string) (g : Rng) :
  (NewTagPair_finish key plaintag rand g).2 = (RandomNonce g).2.
Proof.
  unfold NewTagPair_finish. destruct (RandomNonce g) as [[nonce|err] g1]; cbn [fst snd];
    [destruct (Encrypt _ nonce key)|]; reflexivity.
Qed.

Lemma NewTagPair_inv (key : bytes) (plaintag : string) (g : Rng) (pr : TagPair) :
  (NewTagPair key plaintag g).1 = inl pr →
  Plain pr = plaintag ∧
  is_random_tag (Random pr) ∧
  Random pr = (RandomString RANDOM_TAG_ALPHABET 9 g).1 ∧
  (RandomNonce (RandomString RANDOM_TAG_ALPHABET 9 g).2).1 = inl (Nonce pr) ∧
  Encrypt (list_byte_of_string plaintag) (Nonce pr) key = inl (PlainEncrypted pr).
Proof.
  unfold NewTagPair. change (Z.to_nat RANDOM_TAG_LENGTH) with 9.
  pose proof (RandomString_random_tag g) as Hshape.
  change (Z.to_nat RANDOM_TAG_LENGTH) with 9 in Hshape.
  destruct (RandomString RANDOM_TAG_ALPHABET 9 g) as [rand g1]. cbn [fst snd] in *.
  intros Hfin. apply NewTagPair_finish_inv in Hfin.
  destruct Hfin as (Hp & Hr & Hn & He). rewrite Hr. auto.
Qed.

(** A pair that [NewTagPair] returns keeps the plaintag, carries a random tag
    of nine alphabet symbols drawn first from the random source, the nonce
    that [RandomNonce] gave next, and the encryption of the plaintag's bytes
    under the given key and that nonce. *)
Theorem NewTagPair_success (key : bytes) (plaintag : string) (g : Rng) (pr : TagPair) :
  (NewTagPair key plaintag g).1 = inl pr →
  Plain pr = plaintag ∧
  is_random_tag (Random pr) ∧
  Random pr = (RandomString RANDOM_TAG_ALPHABET 9 g).1 ∧
  (RandomNonce (RandomString RANDOM_TAG_ALPHABET 9 g).2).1 = inl (Nonce pr) ∧
  Encrypt (list_byte_of_string plaintag) (Nonce pr) key = inl (PlainEncrypted pr).
Proof.
  intros Hnew. destruct (NewTagPair_inv key plaintag g pr Hnew) as (Hp & Hr & Hd & Hn & He).
  repeat split; try assumption; apply Hr.
Qed.

(** [NewTagPair] fails exactly when the nonce source fails or, the nonce
    drawn, the encryption fails; the error is returned as it came. *)
Lemma NewTagPair_failure (key : bytes) (plaintag : string) (g : Rng) (e : error) :
  (NewTagPair key plaintag g).1 = inr e ↔
  (RandomNonce (RandomString RANDOM_TAG_ALPHABET 9 g).2).1 = inr e ∨
  ∃ nonce,
    (RandomNonce (RandomString RANDOM_TAG_ALPHABET 9 g).2).1 = inl nonce ∧
    Encrypt (list_byte_of_string plaintag) nonce key = inr e.
Proof.
  unfold NewTagPair, NewTagPair_finish. change (Z.to_nat RANDOM_TAG_LENGTH) with 9.
  destruct (RandomString RANDOM_TAG_ALPHABET 9 g) as [rand g1]. cbn [fst snd].
  destruct (RandomNonce g1) as [[nonce|err] g2]; cbn [fst snd].
  - destruct (Encrypt _ nonce key) as [plainEnc|err] eqn:Henc; cbn [fst]; split.
    + discriminate.
    + intros [Hn|(n & [= <-] & He)]; [discriminate | congruence].
    + intros [= <-]. right. exists nonce. auto.
    + intros [Hn|(n & [= <-] & He)]; [discriminate | congruence].
  - split.
    + intros [= <-]. now left.
    + intros [[= <-]|(n & Hn & _)]; [reflexivity | discriminate].
Qed.

(** A pair that [CreateTag] returns was handed to [SaveTagPair] on the
    backend as it stood, which accepted it; the backend afterwards is the
    one [SaveTagPair] left, and nothing was logged. *)
Theorem CreateTag_success (plaintag : string) (w : World B) (pr : TagPair) :
  (CreateTag plaintag w).1 = inl pr →
  SaveTagPair (bk w) pr = (bk (CreateTag plaintag w).2, None) ∧
  (NewTagPair (Key (bk w)) plaintag (rng w)).1 = inl pr ∧
  Plain pr = plaintag ∧
  is_random_tag (Random pr) ∧
  pair_encrypted (Key (bk w)) pr ∧
  logs (CreateTag plaintag w).2 = logs w.
Proof.
  unfold CreateTag, CreateTag_save.
  pose proof (NewTagPair_inv (Key (bk w)) plaintag (rng w)) as Hnew.
  destruct (NewTagPair (Key (bk w)) plaintag (rng w)) as [[built|err] g1]; cbn [fst snd] in *.
  - destruct (SaveTagPair (bk w) built) as [b1 [cause|]] eqn:Hsave; cbn [fst snd bk logs].
    + discriminate.
    + intros [= <-]. destruct (Hnew built eq_refl) as (Hp & Hr & _ & _ & He).
      unfold pair_encrypted. rewrite Hp.
      split; [exact Hsave|]. split; [reflexivity|]. split; [reflexivity|].
      split; [exact Hr|]. split; [exact He | reflexivity].
  - discriminate.
Qed.

(** When [CreateTag] fails, either the pair could not be built, and then the
    backend was not touched and the error is the one of the crypto
    capability, or the backend refused the pair that was built, and then the
    error carries the backend's name and the cause.  Nothing is logged. *)
Theorem CreateTag_failure (plaintag : string) (w : World B) (e : error) :
  (CreateTag plaintag w).1 = inr e →
  logs (CreateTag plaintag w).2 = logs w ∧
  (((NewTagPair (Key (bk w)) plaintag (rng w)).1 = inr e ∧
    bk (CreateTag plaintag w).2 = bk w) ∨
   ∃ pr cause,
     (NewTagPair (Key (bk w)) plaintag (rng w)).1 = inl pr ∧
     SaveTagPair (bk w) pr = (bk (CreateTag plaintag w).2, Some cause) ∧
     e = ErrSavingTagPair (Name (bk (CreateTag plaintag w).2)) cause).
Proof.
  unfold CreateTag, CreateTag_save.
  destruct (NewTagPair (Key (bk w)) plaintag (rng w)) as [[built|err] g1]; cbn [fst snd].
  - destruct (SaveTagPair (bk w) built) as [b1 [cause|]] eqn:Hsave; cbn [fst snd bk logs].
    + intros [= <-]. split; [reflexivity|]. right. exists built, cause. auto.
    + discriminate.
  - cbn [bk logs]. intros [= <-]. split; [reflexivity|]. now left.
Qed.

(** The random source is read the same way whether or not the backend
    accepts the pair: both [NewTagPair] and [CreateTag] leave it where the
    nonce source left it after the nine draws of the random tag. *)
Lemma CreateTag_rng (plaintag : string) (w : World B) :
  rng (CreateTag plaintag w).2 =
  (RandomNonce (RandomString RANDOM_TAG_ALPHABET 9 (rng w)).2).2.
Proof.
  unfold CreateTag, NewTagPair. change (Z.to_nat RANDOM_TAG_LENGTH) with 9.
  destruct (RandomString RANDOM_TAG_ALPHABET 9 (rng w)) as [rand g1]. cbn [fst snd].
  pose proof (NewTagPair_finish_rng (Key (bk w)) plaintag rand g1) as Hrng.
  destruct (NewTagPair_finish _ _ _ _) as [[pr|err] g2]; cbn [fst snd] in *.
  - destruct (CreateTag_save pr (bk w)); cbn [snd rng]. exact Hrng.
  - exact Hrng.
Qed.

End SingleCreation.

(** ** More on the goroutines *)

Section GoroutineInvariants.

Context {B : Type} `{!Backend B} `{!Crypto}.
Variable Debug : bool.

(** A property of the world together with a property of each goroutine,
    kept by every step, is kept by every schedule. *)
Lemma run_invariant (I : World B → Prop) (P : Task → Prop) :
  (∀ w t, I w → P t → I (step_task Debug w t).1 ∧ P (step_task Debug w t).2) →
  ∀ sched s, I s.1 → Forall P s.2 →
  I (run Debug sched s).1 ∧ Forall P (run Debug sched s).2.
Proof.
  intros Hstep sched. induction sched as [|i sched IH]; intros s HI HP; [auto|].
  cbn [run foldl]. apply IH.
  - unfold step_at. destruct (s.2 !! i) as [t|] eqn:Hi; [|assumption].
    destruct (Hstep s.1 t HI) as [HI' _]; [eapply Forall_lookup_1; eassumption|].
    destruct (step_task Debug s.1 t). exact HI'.
  - unfold step_at. destruct (s.2 !! i) as [t|] eqn:Hi; [|assumption].
    destruct (Hstep s.1 t HI) as [_ HP']; [eapply Forall_lookup_1; eassumption|].
    destruct (step_task Debug s.1 t). cbn [snd] in *. now apply Forall_insert.
Qed.

Lemma launch_all (P : Task → Prop) (existingPlain plaintags : list string) :
  (∀ plain, P (mkTask plain Launched)) →
  Forall P (launch existingPlain plaintags []).
Proof.
  intros HP. rewrite launch_spec. cbn [app]. apply Forall_forall.
  intros t Hin. apply list_elem_of_In, in_map_iff in Hin.
  destruct Hin as (plain & <- & _). apply HP.
Qed.

Lemma received_all (P : Task → Prop) (Q : TagPair → Prop) (chs : list Task) :
  (∀ t pr, P t → stage t = Sent (Some pr) → Q pr) →
  Forall P chs → Forall Q (omap receive chs).
Proof.
  intros HPQ. induction 1 as [|t rest Ht _ IH]; [constructor|].
  rewrite omap_cons. unfold receive at 1.
  destruct (stage t) as [| | | | |[pr|]] eqn:Hst; try exact IH.
  constructor; [now apply (HPQ t) | exact IH].
Qed.


Lemma step_task_encrypted (key : bytes) (w : World B) (t : Task) :
  (∀ (b : B) (pr : TagPair), Key (SaveTagPair b pr).1 = Key b) →
  Key (bk w) = key → task_encrypted key t →
  Key (bk (step_task Debug w t).1) = key ∧ task_encrypted key (step_task Debug w t).2.
Proof.
  intros Hkeep Hkey. unfold task_encrypted, step_task.
  destruct (stage t) as [|k|k rand|pr|[pr|err]|[pr|]] eqn:Hst.
  - intros _. cbn [fst snd stage]. auto.
  - intros ->. destruct (RandomString _ _ _). cbn [fst snd stage bk]. auto.
  - intros ->.
    pose proof (NewTagPair_finish_inv key (task_plain t) rand (rng w)) as Hfin.
    destruct (NewTagPair_finish _ _ _ _) as [[pr|err] g1]; cbn [fst snd stage bk] in *;
      [|auto].
    split; [assumption|]. destruct (Hfin pr eq_refl) as (Hp & _ & _ & He).
    unfold pair_encrypted. now rewrite Hp.
  - intros Henc. unfold CreateTag_save. specialize (Hkeep (bk w) pr).
    destruct (SaveTagPair (bk w) pr) as [b1 [cause|]]; cbn [fst snd stage bk] in *;
      (split; [congruence|]); [exact I | exact Henc].
  - intros Henc. cbn [fst snd stage]. split; [|exact Henc]. destruct Debug; assumption.
  - intros _. cbn [fst snd stage bk]. auto.
  - intros Henc. cbn [fst snd]. rewrite Hst. auto.
  - intros _. cbn [fst snd]. rewrite Hst. auto.
Qed.

(** The log only grows, by what the goroutine wrote. *)
Lemma step_task_logs (w : World B) (t : Task) :
  ∃ extra,
    logs (step_task Debug w t).1 = logs w ++ extra ∧
    length extra + logged Debug t = logged Debug (step_task Debug w t).2.
Proof.
  unfold logged, step_task.
  destruct (stage t) as [|k|k rand|pr|[pr|err]|[pr|]] eqn:Hst.
  - exists []. cbn [fst snd stage]. now rewrite app_nil_r.
  - destruct (RandomString _ _ _). exists []. cbn [fst snd stage logs]. now rewrite app_nil_r.
  - destruct (NewTagPair_finish _ _ _ _) as [[pr|err] g1]; exists [];
      cbn [fst snd stage logs]; now rewrite app_nil_r.
  - destruct (CreateTag_save _ _) as [r b1]. exists []. cbn [fst snd stage logs].
    now rewrite app_nil_r.
  - cbn [fst snd stage]. destruct Debug.
    + eexists. cbn [logs]. split; reflexivity.
    + exists []. now rewrite app_nil_r.
  - eexists. cbn [fst snd stage logs]. split; reflexivity.
  - exists []. cbn [fst snd]. rewrite Hst. now rewrite app_nil_r.
  - exists []. cbn [fst snd]. rewrite Hst. now rewrite app_nil_r.
Qed.

Lemma logged_insert (chs : list Task) (i : nat) (t t1 : Task) :
  chs !! i = Some t →
  sum_list (map (logged Debug) (<[i := t1]> chs)) + logged Debug t =
  sum_list (map (logged Debug) chs) + logged Debug t1.
Proof.
  generalize (logged Debug). intros f.
  revert i. induction chs as [|x rest IH]; intros [|i]; simpl; try discriminate.
  - intros [= ->]. generalize (sum_list (map f rest)) (f t) (f t1). intros n a b. lia.
  - intros Hi. specialize (IH i Hi). revert IH.
    generalize (sum_list (map f (<[i := t1]> rest))) (sum_list (map f rest))
               (f t) (f t1) (f x).
    intros n m a b c IH. lia.
Qed.

Lemma run_logs (sched : list nat) (s : World B * list Task) :
  ∃ added,
    logs (run Debug sched s).1 = logs s.1 ++ added ∧
    length added + sum_list (map (logged Debug) s.2) =
    sum_list (map (logged Debug) (run Debug sched s).2).
Proof.
  revert s. induction sched as [|i sched IH]; intros s.
  - exists []. cbn. now rewrite app_nil_r.
  - cbn [run foldl]. destruct (IH (step_at Debug i s)) as (added & Hlogs & Hcount).
    fold (run Debug sched (step_at Debug i s)). unfold run in Hlogs, Hcount |- *.
    rewrite Hlogs, <- Hcount. clear IH Hlogs Hcount.
    unfold step_at. destruct (s.2 !! i) as [t|] eqn:Hi.
    + destruct (step_task_logs s.1 t) as (extra & Hextra & Hlen).
      pose proof (logged_insert s.2 i t (step_task Debug s.1 t).2 Hi) as Hins.
      destruct (step_task Debug s.1 t) as [w1 t1]. cbn [fst snd] in *.
      exists (extra ++ added). rewrite Hextra, app_assoc, length_app. split; [reflexivity|].
      revert Hlen Hins.
      generalize (sum_list (map (logged Debug) (<[i := t1]> s.2)))
                 (sum_list (map (logged Debug) s.2))
                 (logged Debug t) (logged Debug t1).
      intros n m a b Hlen Hins. lia.
    + exists added. split; reflexivity.
Qed.

Lemma logged_sent (chs : list Task) :
  Forall is_sent chs →
  sum_list (map (logged Debug) chs) =
  failed_slots (map receive chs) + (if Debug then length (omap receive chs) else 0).
Proof.
  induction 1 as [|t rest Hsent _ IH]; [now destruct Debug|].
  destruct t as [plain st]. unfold is_sent in Hsent. cbn [stage] in Hsent.
  destruct st as [| | | | |p]; try contradiction.
  rewrite omap_cons.
  change (receive (mkTask plain (Sent p))) with p.
  change (sum_list (map (logged Debug) (mkTask plain (Sent p) :: rest)))
    with (logged Debug (mkTask plain (Sent p)) + sum_list (map (logged Debug) rest)).
  change (map receive (mkTask plain (Sent p) :: rest)) with (p :: map receive rest).
  rewrite IH. unfold logged. cbn [stage].
  destruct p as [pr|]; destruct Debug; cbn [failed_slots length];
    generalize (failed_slots (map receive rest)) (length (omap receive rest));
    intros n m; lia.
Qed.

(** With no goroutine, no schedule does anything. *)
Lemma run_no_tasks (sched : list nat) (w : World B) :
  run Debug sched (w, []) = (w, []).
Proof.
  induction sched as [|i sched IH]; [reflexivity|]. cbn [run foldl]. exact IH.
Qed.

Lemma missing_tags_nil (existingPlain plaintags : list string) :
  (∀ p, p ∈ plaintags → p ∈ existingPlain) →
  missing_tags existingPlain plaintags = [].
Proof.
  intros Hall. destruct (missing_tags existingPlain plaintags) as [|p rest] eqn:Hm;
    [reflexivity|].
  assert (p ∈ missing_tags existingPlain plaintags) as Hin by (rewrite Hm; left).
  apply missing_tags_elem in Hin. destruct Hin as [Hin Hnot]. exfalso. apply Hnot, Hall, Hin.
Qed.

End GoroutineInvariants.

(** ** More on batch creation *)

Section BatchCreationMore.

Context {B : Type} `{!Backend B} `{!Crypto}.
Variable Debug : bool.

Lemma CreateTagsFromPlain_no_tasks (sched : list nat) (w : World B)
    (plaintags : list string) (pairs : TagPairs) :
  missing_tags (AllPlain pairs) plaintags = [] →
  CreateTagsFromPlain Debug sched w plaintags pairs = (([], None), w).
Proof.
  intros Hnil. rewrite CreateTagsFromPlain_eq. unfold run_tasks.
  rewrite launch_spec, Hnil. cbn [app map length].
  rewrite run_no_tasks. reflexivity.
Qed.

(** When every plaintag already has a known pair, [CreateTagsFromPlain]
    launches no goroutine: it returns no pair and no error and leaves the
    backend, the random source and the log as they were, whatever the
    schedule.  The empty list of plaintags is one such case. *)
Theorem CreateTagsFromPlain_nothing_missing (sched : list nat) (w : World B)
    (plaintags : list string) (pairs : TagPairs) :
  (∀ p, p ∈ plaintags → p ∈ AllPlain pairs) →
  CreateTagsFromPlain Debug sched w plaintags pairs = (([], None), w).
Proof.
  intros Hall. apply CreateTagsFromPlain_no_tasks. now apply missing_tags_nil.
Qed.


(** If saving a pair never changes the backend's key, every pair that
    [CreateTagsFromPlain] returns carries the encryption of its plaintext
    under the backend's key and the pair's own nonce, and the key is still
    the same afterwards. *)
Theorem CreateTagsFromPlain_pairs_encrypted (sched : list nat) (w : World B)
    (plaintags : list string) (pairs : TagPairs) :
  (∀ (b : B) (pr : TagPair), Key (SaveTagPair b pr).1 = Key b) →
  Forall (pair_encrypted (Key (bk w)))
         (CreateTagsFromPlain Debug sched w plaintags pairs).1.1 ∧
  Key (bk (CreateTagsFromPlain Debug sched w plaintags pairs).2) = Key (bk w).
Proof.
  intros Hkeep. rewrite CreateTagsFromPlain_eq. cbn [fst snd]. unfold run_tasks.
  destruct (run_invariant Debug (fun w0 => Key (bk w0) = Key (bk w))
              (task_encrypted (Key (bk w)))) with
    (sched := sched ++ completion (length (launch (AllPlain pairs) plaintags [])))
    (s := (w, launch (AllPlain pairs) plaintags [])) as [Hkey Htasks].
  - intros w0 t Hw0 Ht. now apply step_task_encrypted.
  - reflexivity.
  - apply launch_all. intros plain. exact I.
  - split; [|exact Hkey].
    apply (received_all (task_encrypted (Key (bk w)))); [|exact Htasks].
    intros t pr Ht Hst. unfold task_encrypted in Ht. now rewrite Hst in Ht.
Qed.

(** [CreateTagsFromPlain] keeps the log it finds and appends one entry per
    failed creation, plus one per created pair when [types.Debug] is set. *)
Theorem CreateTagsFromPlain_logs (sched : list nat) (w : World B)
    (plaintags : list string) (pairs : TagPairs) :
  ∃ added,
    logs (CreateTagsFromPlain Debug sched w plaintags pairs).2 = logs w ++ added ∧
    length added =
      failed_slots (delivered Debug sched w plaintags pairs) +
      (if Debug
       then length (CreateTagsFromPlain Debug sched w plaintags pairs).1.1
       else 0).
Proof.
  rewrite CreateTagsFromPlain_eq. cbn [fst snd]. unfold delivered.
  pose proof (run_tasks_sent Debug sched w plaintags pairs) as Hsent.
  apply logged_sent with (Debug := Debug) in Hsent. rewrite <- Hsent.
  unfold run_tasks.
  destruct (run_logs Debug (sched ++ completion (length (launch (AllPlain pairs) plaintags [])))
              (w, launch (AllPlain pairs) plaintags [])) as (added & Hlogs & Hcount).
  exists added. split; [exact Hlogs|]. rewrite <- Hcount. cbn [snd].
  rewrite launch_spec. cbn [app]. rewrite map_map. cbn [logged stage].
  replace (sum_list (map (fun _ : string => 0) (missing_tags (AllPlain pairs) plaintags)))
    with 0; [lia|].
  induction (missing_tags (AllPlain pairs) plaintags) as [|p rest IH]; [reflexivity|].
  cbn. exact IH.
Qed.

Lemma run_cons (i : nat) (sched : list nat) (s : World B * list Task) :
  run Debug (i :: sched) s = run Debug sched (step_at Debug i s).
Proof. reflexivity. Qed.

Lemma step_at_lookup (i : nat) (w : World B) (chs : list Task) (t : Task) :
  chs !! i = Some t →
  step_at Debug i (w, chs) =
  ((step_task Debug w t).1, <[i := (step_task Debug w t).2]> chs).
Proof.
  intros Hi. unfold step_at. cbn [fst snd]. rewrite Hi.
  now destruct (step_task Debug w t).
Qed.

Lemma run_replicate_alone (n i : nat) (w : World B) (chs : list Task) (t : Task) :
  chs !! i = Some t →
  run Debug (replicate n i) (w, chs) =
  ((step_n Debug n (w, t)).1, <[i := (step_n Debug n (w, t)).2]> chs).
Proof.
  revert w chs t. induction n as [|n IH]; intros w chs t Hi.
  - cbn [replicate run foldl step_n fst snd]. now rewrite list_insert_id.
  - cbn [replicate step_n fst snd]. rewrite run_cons, (step_at_lookup i w chs t Hi).
    destruct (step_task Debug w t) as [w1 t1]. cbn [fst snd].
    rewrite (IH w1 (<[i := t1]> chs) t1).
    + now rewrite list_insert_insert_eq.
    + apply list_lookup_insert_eq. eapply lookup_lt_Some; eassumption.
Qed.

Lemma completion_run_each (before chs : list Task) (w : World B) :
  run Debug (flat_map (fun i => replicate TASK_STEPS i) (seq (length before) (length chs)))
      (w, before ++ chs) =
  ((run_each Debug chs w).1, before ++ (run_each Debug chs w).2).
Proof.
  revert before w. induction chs as [|t rest IH]; intros before w; [reflexivity|].
  cbn [length seq flat_map run_each]. rewrite run_app.
  rewrite (run_replicate_alone TASK_STEPS (length before) w (before ++ t :: rest) t)
    by apply list_lookup_middle, eq_refl.
  destruct (step_n Debug TASK_STEPS (w, t)) as [w1 t1]. cbn [fst snd].
  replace (<[length before := t1]> (before ++ t :: rest)) with ((before ++ [t1]) ++ rest).
  - specialize (IH (before ++ [t1]) w1). rewrite length_app in IH. cbn [length] in IH.
    replace (length before + 1) with (S (length before)) in IH by lia.
    rewrite IH. destruct (run_each Debug rest w1) as [w2 rest']. cbn [fst snd].
    now rewrite <- app_assoc.
  - rewrite <- app_assoc. cbn [app].
    replace (length before) with (length before + 0) at 1 by lia.
    now rewrite insert_app_r.
Qed.

Lemma run_each_create_in_turn (tags : list string) (w : World B) :
  (run_each Debug (map (fun plain => mkTask plain Launched) tags) w).1 =
    (create_in_turn Debug tags w).2 ∧
  omap receive (run_each Debug (map (fun plain => mkTask plain Launched) tags) w).2 =
    (create_in_turn Debug tags w).1.
Proof.
  revert w. induction tags as [|plain rest IH]; intros w; [split; reflexivity|].
  cbn [map run_each create_in_turn]. rewrite goroutine_runs_CreateTag.
  destruct (CreateTag plain w) as [[pr|err] w1].
  - match goal with |- context [run_each Debug _ ?w0] => specialize (IH w0) end.
    destruct (run_each Debug _ _) as [w2 rest']. destruct (create_in_turn Debug rest _) as [ps w3].
    cbn [fst snd] in *. rewrite omap_cons. cbn [receive stage].
    destruct IH as [-> ->]. split; reflexivity.
  - match goal with |- context [run_each Debug _ ?w0] => specialize (IH w0) end.
    destruct (run_each Debug _ _) as [w2 rest']. cbn [fst snd] in *.
    rewrite omap_cons. cbn [receive stage]. exact IH.
Qed.

(** When the goroutines run one after the other in launch order,
    [CreateTagsFromPlain] does what calling [CreateTag] on each missing
    plaintag in turn does: the same pairs, backend, random source and log. *)
Theorem CreateTagsFromPlain_in_turn (w : World B) (plaintags : list string)
    (pairs : TagPairs) :
  CreateTagsFromPlain Debug [] w plaintags pairs =
  (((create_in_turn Debug (missing_tags (AllPlain pairs) plaintags) w).1, None),
   (create_in_turn Debug (missing_tags (AllPlain pairs) plaintags) w).2).
Proof.
  rewrite CreateTagsFromPlain_eq. unfold run_tasks. cbn [app]. unfold completion.
  pose proof (completion_run_each [] (launch (AllPlain pairs) plaintags []) w) as Hrun.
  cbn [length app] in Hrun. rewrite Hrun. cbn [fst snd].
  rewrite launch_spec. cbn [app].
  destruct (run_each_create_in_turn (missing_tags (AllPlain pairs) plaintags) w) as [-> ->].
  reflexivity.
Qed.

End BatchCreationMore.

(** ** More on row population *)

Section RowPopulationMore.

Context {B : Type} `{!Backend B} `{!Crypto}.
Variable Debug : bool.

Lemma AllPlain_elem (pairs : TagPairs) (p : string) :
  p ∈ AllPlain pairs ↔ ∃ pr, pr ∈ pairs ∧ Plain pr = p.
Proof.
  unfold AllPlain. rewrite list_elem_of_In, in_map_iff. split.
  - intros (pr & Hp & Hin). exists pr. now rewrite list_elem_of_In.
  - intros (pr & Hin & Hp). exists pr. now rewrite <- list_elem_of_In.
Qed.

Lemma first_match_matched (plain : string) (allPairs : TagPairs) :
  first_match plain allPairs ≠ None ↔ plain ∈ AllPlain allPairs.
Proof.
  rewrite AllPlain_elem. split.
  - intros Hfm. destruct (first_match plain allPairs) as [r|] eqn:Heq; [|congruence].
    apply first_match_Some in Heq. destruct Heq as (before & pr & after & -> & Hp & _).
    exists pr. split; [|assumption]. apply elem_of_app. right. left.
  - intros (pr & Hin & Hp) Hnone. rewrite first_match_None in Hnone.
    now apply (Hnone pr).
Qed.

(** When every plain tag has a pair, the resolution yields one random tag
    per plain tag. *)
Lemma resolve_all_matched (plainTags : list string) (allPairs : TagPairs) :
  (∀ p, p ∈ plainTags → p ∈ AllPlain allPairs) →
  resolve plainTags allPairs [] =
    inl (omap (fun plain => first_match plain allPairs) plainTags) ∧
  length (omap (fun plain => first_match plain allPairs) plainTags) = length plainTags.
Proof.
  intros Hall.
  assert (first_unmatched plainTags allPairs = None) as Hnone.
  { apply first_unmatched_None. intros p Hin. now apply first_match_matched, Hall. }
  split; [|now apply omap_first_match_length].
  destruct allPairs as [|pr others].
  - rewrite resolve_nil. destruct plainTags as [|p rest]; [reflexivity|].
    specialize (Hall p). cbn in Hall. exfalso.
    assert (p ∈ @nil string) as Hin by (apply Hall; left). inversion Hin.
  - rewrite resolve_spec, Hnone by discriminate. reflexivity.
Qed.

(** When no creation failed, every plaintag has a pair, known or new. *)
Lemma all_delivered_cover (sched : list nat) (w : World B) (plaintags : list string)
    (pairs : TagPairs) :
  Forall is_Some (delivered Debug sched w plaintags pairs) →
  ∀ p, p ∈ plaintags →
       p ∈ AllPlain (pairs ++ (CreateTagsFromPlain Debug sched w plaintags pairs).1.1).
Proof.
  intros Hall p Hin. unfold AllPlain. rewrite map_app.
  apply elem_of_app.
  destruct (SliceContains (AllPlain pairs) p) eqn:Hknown.
  - left. now apply SliceContains_spec.
  - right. rewrite newPairs_plains, remove_failed_all; [|apply delivered_length|assumption].
    apply missing_tags_elem. split; [assumption|]. now apply SliceContains_false.
Qed.

Lemma remove_failed_not_elem (tags : list string) (results : list (option TagPair))
    (i : nat) (p : string) :
  NoDup tags → tags !! i = Some p → results !! i = Some None →
  p ∉ remove_failed tags results.
Proof.
  intros Hnd. revert results i.
  induction Hnd as [|t tags Hnotin Hnd IH]; intros [|r results] [|i]; cbn;
    try discriminate.
  - intros [= ->] [= ->] Hin. apply Hnotin.
    eapply elem_of_sublist; [exact Hin | apply remove_failed_sublist].
  - intros Hp Hr. specialize (IH results i Hp Hr).
    destruct r as [pr|]; [|exact IH].
    intros Hin. apply elem_of_cons in Hin. destruct Hin as [->|Hin]; [|now apply IH].
    apply Hnotin. eapply list_elem_of_lookup_2. exact Hp.
Qed.

(** The only errors that [PopulateRowBeforeSave] returns are the missing
    pair of a plain tag of the row and the wrapped failure of the payload's
    encryption; the error branch after [CreateTagsFromPlain] is never
    taken. *)
Theorem PopulateRowBeforeSave_errors (sched : list nat) (w : World B) (row : Row)
    (pairs : TagPairs) (e : error) :
  (PopulateRowBeforeSave Debug sched w row pairs).1.1.2 = Some e →
  (∃ p, e = ErrMissingTagPair p ∧ p ∈ PlainTags row) ∨
  (∃ cause,
     e = ErrEncrypting cause ∧
     Encrypt (Decrypted row) (RowNonce row)
       (Key (bk (PopulateRowBeforeSave Debug sched w row pairs).2)) = inr cause).
Proof.
  rewrite PopulateRowBeforeSave_eq. cbn zeta.
  set (created := CreateTagsFromPlain Debug sched w (PlainTags row) pairs).
  destruct (resolve (PlainTags row) (pairs ++ created.1.1) []) as [randtags|e'] eqn:Hres.
  - destruct (Encrypt _ _ _) as [encData|cause] eqn:Henc; cbn [fst snd].
    + discriminate.
    + intros [= <-]. right. exists cause. auto.
  - cbn [fst snd]. intros [= <-]. left. apply resolve_error in Hres.
    destruct Hres as (p & -> & Hin & _). exists p. auto.
Qed.

(** After a successful call the row's [Encrypted] is the encryption of its
    payload under the row's nonce and the backend's key. *)
Theorem PopulateRowBeforeSave_success (sched : list nat) (w : World B) (row : Row)
    (pairs : TagPairs) :
  (PopulateRowBeforeSave Debug sched w row pairs).1.1.2 = None →
  Encrypt (Decrypted row) (RowNonce row)
    (Key (bk (PopulateRowBeforeSave Debug sched w row pairs).2)) =
  inl (Encrypted (PopulateRowBeforeSave Debug sched w row pairs).1.2).
Proof.
  rewrite PopulateRowBeforeSave_eq. cbn zeta.
  set (created := CreateTagsFromPlain Debug sched w (PlainTags row) pairs).
  destruct (resolve (PlainTags row) (pairs ++ created.1.1) []) as [randtags|e'];
    [|discriminate].
  destruct (Encrypt (Decrypted row) (RowNonce row) (Key (bk created.2)))
    as [encData|cause] eqn:Henc; cbn [fst snd Encrypted]; [|discriminate].
  intros _. exact Henc.
Qed.

(** [PopulateRowBeforeSave] never touches the row's plain tags, payload and
    nonce, and it changes [Encrypted] only when it returns no error. *)
Theorem PopulateRowBeforeSave_frame (sched : list nat) (w : World B) (row : Row)
    (pairs : TagPairs) :
  PlainTags (PopulateRowBeforeSave Debug sched w row pairs).1.2 = PlainTags row ∧
  Decrypted (PopulateRowBeforeSave Debug sched w row pairs).1.2 = Decrypted row ∧
  RowNonce (PopulateRowBeforeSave Debug sched w row pairs).1.2 = RowNonce row ∧
  ((PopulateRowBeforeSave Debug sched w row pairs).1.1.2 = None ∨
   Encrypted (PopulateRowBeforeSave Debug sched w row pairs).1.2 = Encrypted row).
Proof.
  rewrite PopulateRowBeforeSave_eq. cbn zeta.
  destruct (resolve _ _ _); [destruct (Encrypt _ _ _)|]; cbn; auto.
Qed.

(** When no creation fails, no missing pair is reported and the row gets one
    random tag per plain tag, the first match of each. *)
Theorem PopulateRowBeforeSave_all_created (sched : list nat) (w : World B) (row : Row)
    (pairs : TagPairs) :
  Forall is_Some (delivered Debug sched w (PlainTags row) pairs) →
  (∀ p, (PopulateRowBeforeSave Debug sched w row pairs).1.1.2 ≠ Some (ErrMissingTagPair p)) ∧
  length (RandomTags (PopulateRowBeforeSave Debug sched w row pairs).1.2) =
    length (PlainTags row) ∧
  RandomTags (PopulateRowBeforeSave Debug sched w row pairs).1.2 =
    omap (fun plain =>
            first_match plain
              (pairs ++ (PopulateRowBeforeSave Debug sched w row pairs).1.1.1))
         (PlainTags row).
Proof.
  intros Hall. rewrite PopulateRowBeforeSave_eq. cbn zeta.
  set (created := CreateTagsFromPlain Debug sched w (PlainTags row) pairs).
  destruct (resolve_all_matched (PlainTags row) (pairs ++ created.1.1)) as [-> Hlen].
  { intros p Hin. now apply all_delivered_cover. }
  destruct (Encrypt _ _ _); cbn [fst snd RandomTags];
    (split; [intros p; discriminate|]); split; (exact Hlen || reflexivity).
Qed.

(** When the known pairs cover every plain tag of the row,
    [PopulateRowBeforeSave] creates nothing and leaves the backend, the
    random source and the log alone; the random tags are the first matches
    among the known pairs, one per plain tag. *)
Theorem PopulateRowBeforeSave_all_known (sched : list nat) (w : World B) (row : Row)
    (pairs : TagPairs) :
  (∀ p, p ∈ PlainTags row → p ∈ AllPlain pairs) →
  (PopulateRowBeforeSave Debug sched w row pairs).1.1.1 = [] ∧
  (PopulateRowBeforeSave Debug sched w row pairs).2 = w ∧
  (∀ p, (PopulateRowBeforeSave Debug sched w row pairs).1.1.2 ≠ Some (ErrMissingTagPair p)) ∧
  RandomTags (PopulateRowBeforeSave Debug sched w row pairs).1.2 =
    omap (fun plain => first_match plain pairs) (PlainTags row) ∧
  length (RandomTags (PopulateRowBeforeSave Debug sched w row pairs).1.2) =
    length (PlainTags row).
Proof.
  intros Hall. rewrite PopulateRowBeforeSave_eq. cbn zeta.
  rewrite CreateTagsFromPlain_no_tasks by now apply missing_tags_nil.
  cbn [fst snd]. rewrite app_nil_r.
  destruct (resolve_all_matched (PlainTags row) pairs Hall) as [-> Hlen].
  destruct (Encrypt _ _ _); cbn [fst snd RandomTags];
    repeat split; try exact Hlen; intros p; discriminate.
Qed.

(** Populating a row again, with the pairs the first call used and returned
    as the known pairs, changes nothing: no pair is created, the world and
    the row stay as the first call left them.  The first call must have
    succeeded with at least one pair at hand. *)
Theorem PopulateRowBeforeSave_again (sched1 sched2 : list nat) (w : World B) (row : Row)
    (pairs : TagPairs) :
  (PopulateRowBeforeSave Debug sched1 w row pairs).1.1.2 = None →
  pairs ++ (PopulateRowBeforeSave Debug sched1 w row pairs).1.1.1 ≠ [] →
  PopulateRowBeforeSave Debug sched2
    (PopulateRowBeforeSave Debug sched1 w row pairs).2
    (PopulateRowBeforeSave Debug sched1 w row pairs).1.2
    (pairs ++ (PopulateRowBeforeSave Debug sched1 w row pairs).1.1.1) =
  (([], None),
   (PopulateRowBeforeSave Debug sched1 w row pairs).1.2,
   (PopulateRowBeforeSave Debug sched1 w row pairs).2).
Proof.
  rewrite (PopulateRowBeforeSave_eq Debug sched1 w row pairs). cbn zeta.
  set (created := CreateTagsFromPlain Debug sched1 w (PlainTags row) pairs).
  destruct (resolve (PlainTags row) (pairs ++ created.1.1) []) as [randtags|e'] eqn:Hres;
    [|discriminate].
  destruct (Encrypt (Decrypted row) (RowNonce row) (Key (bk created.2)))
    as [encData|cause] eqn:Henc; [|discriminate].
  cbn [fst snd]. intros _ Hne.
  assert (∀ p, p ∈ PlainTags row → p ∈ AllPlain (pairs ++ created.1.1)) as Hall.
  { rewrite resolve_spec in Hres by assumption.
    destruct (first_unmatched (PlainTags row) (pairs ++ created.1.1)) eqn:Hfu;
      [discriminate|].
    intros p Hin. apply first_match_matched.
    now apply (proj1 (first_unmatched_None _ _) Hfu). }
  rewrite PopulateRowBeforeSave_eq. cbn zeta. cbn [PlainTags Decrypted RowNonce].
  rewrite CreateTagsFromPlain_no_tasks by now apply missing_tags_nil.
  cbn [fst snd]. rewrite app_nil_r, Hres, Henc. reflexivity.
Qed.

(** A failed creation does not go unnoticed: when the row's plain tags are
    pairwise different, some goroutine delivered nil and at least one pair
    is at hand, [PopulateRowBeforeSave] returns a missing-pair error. *)
Theorem PopulateRowBeforeSave_failure_detected (sched : list nat) (w : World B)
    (row : Row) (pairs : TagPairs) :
  NoDup (PlainTags row) →
  None ∈ delivered Debug sched w (PlainTags row) pairs →
  pairs ++ (PopulateRowBeforeSave Debug sched w row pairs).1.1.1 ≠ [] →
  ∃ p, (PopulateRowBeforeSave Debug sched w row pairs).1.1.2 = Some (ErrMissingTagPair p) ∧
       p ∈ PlainTags row.
Proof.
  intros Hnd Hfail. rewrite PopulateRowBeforeSave_eq. cbn zeta.
  set (created := CreateTagsFromPlain Debug sched w (PlainTags row) pairs).
  intros Hne.
  assert (pairs ++ created.1.1 ≠ []) as Hne'.
  { destruct (resolve _ _ _); [destruct (Encrypt _ _ _)|]; exact Hne. }
  clear Hne. rewrite resolve_spec by assumption.
  apply list_elem_of_lookup in Hfail. destruct Hfail as [i Hi].
  destruct (lookup_lt_is_Some_2 (missing_tags (AllPlain pairs) (PlainTags row)) i) as [q Hq].
  { rewrite <- (delivered_length Debug sched w). eapply lookup_lt_Some. exact Hi. }
  assert (q ∈ missing_tags (AllPlain pairs) (PlainTags row)) as Hqin
    by (eapply list_elem_of_lookup_2; exact Hq).
  apply missing_tags_elem in Hqin. destruct Hqin as [Hqrow Hqnew].
  assert (first_match q (pairs ++ created.1.1) = None) as Hnone.
  { destruct (first_match q (pairs ++ created.1.1)) eqn:Hfm; [|reflexivity]. exfalso.
    assert (q ∈ AllPlain (pairs ++ created.1.1)) as Hin
      by (apply first_match_matched; congruence).
    unfold AllPlain in Hin. rewrite map_app in Hin. apply elem_of_app in Hin.
    destruct Hin as [Hin|Hin]; [now apply Hqnew|].
    subst created. rewrite newPairs_plains in Hin. revert Hin.
    apply (remove_failed_not_elem _ _ i); [|assumption|assumption].
    eapply sublist_NoDup; [exact Hnd | apply missing_tags_sublist]. }
  destruct (first_unmatched (PlainTags row) (pairs ++ created.1.1)) as [p|] eqn:Hfu.
  - exists p. split; [reflexivity|]. now apply first_unmatched_Some in Hfu.
  - exfalso. rewrite first_unmatched_None in Hfu. now apply (Hfu q).
Qed.

End RowPopulationMore.

(** ** More runs on the in-memory backend *)

Lemma MemBackend_keeps_key (b : MemBackend) (pr : TagPair) :
  Key (SaveTagPair b pr).1 = Key b.
Proof.
  cbn [SaveTagPair MemBackend_Backend]. destruct (SliceContains _ _); reflexivity.
Qed.

Lemma NewTagPair_success_witness :
  (NewTagPair [Byte.x01] "work" counting_rng).1 = inl created_work ∧
  Plain created_work = "work".
Proof.
  assert ((NewTagPair [Byte.x01] "work" counting_rng).1 = inl created_work) as Hnew
    by (vm_compute; reflexivity).
  split; [exact Hnew|].
  exact (proj1 (NewTagPair_success [Byte.x01] "work" counting_rng created_work Hnew)).
Defined.

Lemma CreateTag_success_witness :
  (CreateTag "work" (mem0 [])).1 = inl created_work ∧
  SaveTagPair (bk (mem0 [])) created_work = (bk (CreateTag "work" (mem0 [])).2, None).
Proof.
  assert ((CreateTag "work" (mem0 [])).1 = inl created_work) as Hnew
    by (vm_compute; reflexivity).
  split; [exact Hnew|].
  exact (proj1 (CreateTag_success "work" (mem0 []) created_work Hnew)).
Defined.

Lemma CreateTag_failure_witness :
  (CreateTag "work" (mem0 ["work"])).1 =
    inr (ErrSavingTagPair "mem" (ErrExternal "refused")) ∧
  logs (CreateTag "work" (mem0 ["work"])).2 = logs (mem0 ["work"]).
Proof.
  assert ((CreateTag "work" (mem0 ["work"])).1 =
          inr (ErrSavingTagPair "mem" (ErrExternal "refused"))) as Herr
    by (vm_compute; reflexivity).
  split; [exact Herr|].
  exact (proj1 (CreateTag_failure "work" (mem0 ["work"]) _ Herr)).
Defined.

Lemma CreateTagsFromPlain_nothing_missing_witness :
  CreateTagsFromPlain false [0; 3] (mem0 []) ["work"; "work"] [known_work] =
  (([], None), mem0 []).
Proof.
  apply (CreateTagsFromPlain_nothing_missing false [0; 3] (mem0 [])
           ["work"; "work"] [known_work]).
  intros p Hin. apply SliceContains_spec.
  apply elem_of_cons in Hin. destruct Hin as [->|Hin]; [reflexivity|].
  apply list_elem_of_singleton in Hin. now rewrite Hin.
Defined.

Lemma CreateTagsFromPlain_pairs_encrypted_witness :
  Forall (pair_encrypted (Key (bk (mem0 ["2015"]))))
         (CreateTagsFromPlain false [1; 0; 0] (mem0 ["2015"]) ["work"; "2015"; "home"] []).1.1.
Proof.
  exact (proj1 (CreateTagsFromPlain_pairs_encrypted false [1; 0; 0] (mem0 ["2015"])
                  ["work"; "2015"; "home"] [] MemBackend_keeps_key)).
Defined.

Lemma PopulateRowBeforeSave_no_pairs_witness :
  [] ++ (PopulateRowBeforeSave false [] (mem0 ["work"]) row_work []).1.1.1 = [] ∧
  RandomTags (PopulateRowBeforeSave false [] (mem0 ["work"]) row_work []).1.2 = [].
Proof.
  assert ([] ++ (PopulateRowBeforeSave false [] (mem0 ["work"]) row_work []).1.1.1 = [])
    as Hnil by (vm_compute; reflexivity).
  split; [exact Hnil|].
  exact (proj1 (PopulateRowBeforeSave_no_pairs false [] (mem0 ["work"]) row_work [] Hnil)).
Defined.

Lemma PopulateRowBeforeSave_unmatched_witness :
  first_unmatched (PlainTags row_work_2015)
    ([] ++ (PopulateRowBeforeSave false [] (mem0 ["2015"]) row_work_2015 []).1.1.1) =
    Some "2015" ∧
  (PopulateRowBeforeSave false [] (mem0 ["2015"]) row_work_2015 []).1.1.2 =
    Some (ErrMissingTagPair "2015").
Proof.
  assert (first_unmatched (PlainTags row_work_2015)
            ([] ++ (PopulateRowBeforeSave false [] (mem0 ["2015"]) row_work_2015 []).1.1.1) =
          Some "2015") as Hfirst by (vm_compute; reflexivity).
  split; [exact Hfirst|].
  refine (PopulateRowBeforeSave_unmatched false [] (mem0 ["2015"]) row_work_2015 []
            "2015" _ Hfirst).
  vm_compute. discriminate.
Defined.

Lemma PopulateRowBeforeSave_randomTags_length_witness :
  (PopulateRowBeforeSave false [1] (mem0 []) row_work_2015 []).1.1.2 = None ∧
  length (RandomTags (PopulateRowBeforeSave false [1] (mem0 []) row_work_2015 []).1.2) =
  length (PlainTags row_work_2015).
Proof.
  assert ((PopulateRowBeforeSave false [1] (mem0 []) row_work_2015 []).1.1.2 = None)
    as Hok by (vm_compute; reflexivity).
  split; [exact Hok|].
  refine (PopulateRowBeforeSave_randomTags_length false [1] (mem0 []) row_work_2015 []
            _ Hok).
  vm_compute. discriminate.
Defined.

Lemma PopulateRowBeforeSave_errors_witness :
  (PopulateRowBeforeSave false [] (mem0 []) row_no_nonce [known_work]).1.1.2 =
    Some (ErrEncrypting (ErrExternal "nil nonce")) ∧
  ((∃ p, ErrEncrypting (ErrExternal "nil nonce") = ErrMissingTagPair p ∧
         p ∈ PlainTags row_no_nonce) ∨
   (∃ cause,
      ErrEncrypting (ErrExternal "nil nonce") = ErrEncrypting cause ∧
      Encrypt (Decrypted row_no_nonce) (RowNonce row_no_nonce)
        (Key (bk (PopulateRowBeforeSave false [] (mem0 []) row_no_nonce [known_work]).2))
      = inr cause)).
Proof.
  assert ((PopulateRowBeforeSave false [] (mem0 []) row_no_nonce [known_work]).1.1.2 =
          Some (ErrEncrypting (ErrExternal "nil nonce"))) as Herr
    by (vm_compute; reflexivity).
  split; [exact Herr|].
  exact (PopulateRowBeforeSave_errors false [] (mem0 []) row_no_nonce [known_work] _ Herr).
Defined.

Lemma PopulateRowBeforeSave_success_witness :
  (PopulateRowBeforeSave false [1; 0] (mem0 []) row_work_2015 [known_work]).1.1.2 = None ∧
  Encrypt (Decrypted row_work_2015) (RowNonce row_work_2015)
    (Key (bk (PopulateRowBeforeSave false [1; 0] (mem0 []) row_work_2015 [known_work]).2)) =
  inl (Encrypted (PopulateRowBeforeSave false [1; 0] (mem0 []) row_work_2015 [known_work]).1.2).
Proof.
  assert ((PopulateRowBeforeSave false [1; 0] (mem0 []) row_work_2015 [known_work]).1.1.2 =
          None) as Hok by (vm_compute; reflexivity).
  split; [exact Hok|].
  exact (PopulateRowBeforeSave_success false [1; 0] (mem0 []) row_work_2015 [known_work] Hok).
Defined.

Lemma PopulateRowBeforeSave_all_created_witness :
  Forall is_Some (delivered false [1; 1] (mem0 []) (PlainTags row_work_2015) [known_work]) ∧
  length (RandomTags
            (PopulateRowBeforeSave false [1; 1] (mem0 []) row_work_2015 [known_work]).1.2) =
  length (PlainTags row_work_2015).
Proof.
  assert (Forall is_Some
            (delivered false [1; 1] (mem0 []) (PlainTags row_work_2015) [known_work]))
    as Hall by all_delivered.
  split; [exact Hall|].
  exact (proj1 (proj2 (PopulateRowBeforeSave_all_created false [1; 1] (mem0 [])
                         row_work_2015 [known_work] Hall))).
Defined.

Lemma PopulateRowBeforeSave_all_known_witness :
  (PopulateRowBeforeSave false [0] (mem0 []) row_work [known_work]).1.1.1 = [].
Proof.
  refine (proj1 (PopulateRowBeforeSave_all_known false [0] (mem0 []) row_work
                   [known_work] _)).
  intros p Hin. apply SliceContains_spec.
  apply list_elem_of_singleton in Hin. now rewrite Hin.
Defined.

Lemma PopulateRowBeforeSave_again_witness :
  PopulateRowBeforeSave false [2; 2]
    (PopulateRowBeforeSave false [1; 0] (mem0 []) row_work_2015 []).2
    (PopulateRowBeforeSave false [1; 0] (mem0 []) row_work_2015 []).1.2
    ([] ++ (PopulateRowBeforeSave false [1; 0] (mem0 []) row_work_2015 []).1.1.1) =
  (([], None),
   (PopulateRowBeforeSave false [1; 0] (mem0 []) row_work_2015 []).1.2,
   (PopulateRowBeforeSave false [1; 0] (mem0 []) row_work_2015 []).2).
Proof.
  refine (PopulateRowBeforeSave_again false [1; 0] [2; 2] (mem0 []) row_work_2015 [] _ _).
  - vm_compute. reflexivity.
  - vm_compute. discriminate.
Defined.

Lemma PopulateRowBeforeSave_failure_detected_witness :
  None ∈ delivered false [] (mem0 ["2015"]) (PlainTags row_work_2015) [] ∧
  ∃ p, (PopulateRowBeforeSave false [] (mem0 ["2015"]) row_work_2015 []).1.1.2 =
         Some (ErrMissingTagPair p) ∧
       p ∈ PlainTags row_work_2015.
Proof.
  assert (None ∈ delivered false [] (mem0 ["2015"]) (PlainTags row_work_2015) [])
    as Hfail by (vm_compute; repeat constructor).
  split; [exact Hfail|].
  refine (PopulateRowBeforeSave_failure_detected false [] (mem0 ["2015"]) row_work_2015 []
            _ Hfail _).
  - apply NoDup_cons. split.
    + intros Hin. apply list_elem_of_singleton in Hin. discriminate.
    + apply NoDup_singleton.
  - vm_compute. discriminate.
Defined.
